(** * Markdown converter: a shallow embedding of [scripts/markdown_converter.py]

    The development follows the Python source function by function.  Python
    [str] values are sequences of Unicode code points, modelled as [list N];
    the [re] patterns of [_clean_markdown] are written as data and run by a
    small backtracking matcher that implements the fragment of [re] those
    patterns use (greedy bounded repetition of a character class, capture
    groups, leftmost non-overlapping substitution). *)

From Stdlib Require Import List NArith ZArith QArith Bool Arith Lia.
From Stdlib Require Import Strings.String Strings.Ascii.
Import ListNotations.

#[local] Open Scope N_scope.

(* ------------------------------------------------------------------ *)
(** ** Python strings *)

Module PyStr.

Definition str := list N.

(** A literal: every character of a Rocq string is its Latin-1 code point. *)
Fixpoint py (s : string) : str :=
  match s with
  | EmptyString => []
  | String c s' => N_of_ascii c :: py s'
  end.

Definition NL : N := 10.
Definition HASH : N := 35.
Definition PIPE : N := 124.
Definition STAR : N := 42.
Definition PLUS : N := 43.
Definition DASH : N := 45.
Definition SPACE : N := 32.

Definition str_eqb (a b : str) : bool :=
  if list_eq_dec N.eq_dec a b then true else false.

(** [Py_UNICODE_ISSPACE]: the characters [str.strip()], [str.split()] and
    the [\s] class of [re] treat as whitespace. *)
Definition isspace (c : N) : bool :=
  ((9 <=? c) && (c <=? 13)) || ((28 <=? c) && (c <=? 32))
  || (c =? 133) || (c =? 160) || (c =? 5760)
  || ((8192 <=? c) && (c <=? 8202))
  || (c =? 8232) || (c =? 8233) || (c =? 8239) || (c =? 8287)
  || (c =? 12288).

(** [s.lstrip()] *)
Fixpoint lstrip (s : str) : str :=
  match s with
  | c :: s' => if isspace c then lstrip s' else s
  | [] => []
  end.

(** [s.rstrip()] *)
Definition rstrip (s : str) : str := rev (lstrip (rev s)).

(** [s.strip()] *)
Definition strip (s : str) : str := rstrip (lstrip s).

(** Truth value of a string: non-empty. *)
Definition truthy (s : str) : bool :=
  match s with [] => false | _ :: _ => true end.

(** [s.split('\n')]: always at least one piece. *)
Fixpoint split_nl (s : str) : list str :=
  match s with
  | [] => [[]]
  | c :: s' =>
      if c =? NL then [] :: split_nl s'
      else match split_nl s' with
           | l :: ls => (c :: l) :: ls
           | [] => [[c]]
           end
  end.

(** [sep.join(parts)] *)
Fixpoint join (sep : str) (parts : list str) : str :=
  match parts with
  | [] => []
  | [p] => p
  | p :: ps => p ++ sep ++ join sep ps
  end.

(** [s.split()]: the maximal runs of non-whitespace characters. *)
Fixpoint split_ws_aux (s : str) (cur : str) : list str :=
  match s with
  | [] => match cur with [] => [] | _ => [rev cur] end
  | c :: s' =>
      if isspace c
      then match cur with
           | [] => split_ws_aux s' []
           | _ => rev cur :: split_ws_aux s' []
           end
      else split_ws_aux s' (c :: cur)
  end.

Definition split_ws (s : str) : list str := split_ws_aux s [].

(** [c in s] *)
Definition contains (c : N) (s : str) : bool := existsb (N.eqb c) s.

(** [s.startswith(c)] for a one-character prefix. *)
Definition startswith1 (c : N) (s : str) : bool :=
  match s with x :: _ => x =? c | [] => false end.

(** [str(n)] for a non-negative integer: its decimal digits. *)
Fixpoint digits (d : Decimal.uint) : str :=
  match d with
  | Decimal.Nil => []
  | Decimal.D0 d' => 48 :: digits d'
  | Decimal.D1 d' => 49 :: digits d'
  | Decimal.D2 d' => 50 :: digits d'
  | Decimal.D3 d' => 51 :: digits d'
  | Decimal.D4 d' => 52 :: digits d'
  | Decimal.D5 d' => 53 :: digits d'
  | Decimal.D6 d' => 54 :: digits d'
  | Decimal.D7 d' => 55 :: digits d'
  | Decimal.D8 d' => 56 :: digits d'
  | Decimal.D9 d' => 57 :: digits d'
  end.

Definition str_of_nat (n : nat) : str := digits (Nat.to_uint n).

End PyStr.
Import PyStr.

(* ------------------------------------------------------------------ *)
(** ** The fragment of [re] used by [_clean_markdown] *)

Module Re.

(** A pattern is a sequence of atoms: a character class with a greedy
    repetition [{lo,hi}] ([hi = None] for unbounded), or the opening or
    closing parenthesis of capture group [g]. *)
Inductive atom :=
| Rep (cls : N -> bool) (lo : nat) (hi : option nat)
| GOpen (g : nat)
| GClose (g : nat).

Definition regex := list atom.

(** Spans of the groups closed so far, as offsets from the match start. *)
Definition spans := list (nat * (nat * nat)).

Fixpoint lookup {A} (g : nat) (l : list (nat * A)) : option A :=
  match l with
  | [] => None
  | (k, v) :: l' => if Nat.eqb k g then Some v else lookup g l'
  end.

(** How many leading characters of [s] a greedy [cls{_,hi}] can take. *)
Fixpoint greedy (cls : N -> bool) (hi : option nat) (s : str) : nat :=
  match s with
  | [] => O
  | c :: s' =>
      match hi with
      | Some O => O
      | Some (S h) => if cls c then S (greedy cls (Some h) s') else O
      | None => if cls c then S (greedy cls None s') else O
      end
  end.

(** Backtracking: try [k], then [k-1], ... down to [lo]. *)
Fixpoint try_down {A} (f : nat -> option A) (lo k : nat) : option A :=
  if Nat.ltb k lo then None
  else match f k with
       | Some r => Some r
       | None => match k with
                 | O => None
                 | S k' => try_down f lo k'
                 end
       end.

(** [rmatch r s pos opens caps]: match [r] against [s], the input left at
    offset [pos] from the match start; the result is the end offset and the
    group spans. *)
Fixpoint rmatch (r : regex) (s : str) (pos : nat)
         (opens : list (nat * nat)) (caps : spans) : option (nat * spans) :=
  match r with
  | [] => Some (pos, caps)
  | GOpen g :: r' => rmatch r' s pos ((g, pos) :: opens) caps
  | GClose g :: r' =>
      match lookup g opens with
      | Some b => rmatch r' s pos opens ((g, (b, pos)) :: caps)
      | None => None
      end
  | Rep cls lo hi :: r' =>
      try_down (fun k => rmatch r' (skipn k s) (pos + k)%nat opens caps)
               lo (greedy cls hi s)
  end.

(** [pattern.match(s)] anchored at the start of [s]. *)
Definition match_at (r : regex) (s : str) : option (nat * spans) :=
  rmatch r s O [] [].

(** A replacement template: literal characters and group references. *)
Inductive ritem :=
| Lit (c : N)
| Ref (g : nat).

Definition group (s : str) (caps : spans) (g : nat) : str :=
  match lookup g caps with
  | Some (b, e) => firstn (e - b) (skipn b s)
  | None => []
  end.

Fixpoint expand (t : list ritem) (s : str) (caps : spans) : str :=
  match t with
  | [] => []
  | Lit c :: t' => c :: expand t' s caps
  | Ref g :: t' => group s caps g ++ expand t' s caps
  end.

(** [re.sub(r, t, s)]: scan left to right; a match is replaced and the scan
    resumes after it ([skip] counts the characters of the current match still
    to be passed over); otherwise the character is copied.  The patterns of
    this program all consume at least one character, so the treatment of
    empty matches does not arise; an empty match copies the character. *)
Fixpoint sub_aux (r : regex) (t : list ritem) (s : str) (skip : nat) : str :=
  match s with
  | [] => []
  | c :: s' =>
      match skip with
      | S n => sub_aux r t s' n
      | O =>
          match match_at r s with
          | Some (S n, caps) => expand t s caps ++ sub_aux r t s' n
          | _ => c :: sub_aux r t s' O
          end
      end
  end.

Definition sub (r : regex) (t : list ritem) (s : str) : str := sub_aux r t s O.

(** Character classes. *)
Definition only c : N -> bool := fun x => x =? c.
Definition dot : N -> bool := fun x => negb (x =? NL).          (* [.] *)
Definition ws : N -> bool := isspace.                          (* [\s] *)

End Re.
Import Re.

(* ------------------------------------------------------------------ *)
(** ** [_clean_markdown] *)

(** [r'\n{3,}'] and its replacement ['\n\n'] *)
Definition re_newlines : regex := [Rep (only NL) 3%nat None].
Definition to_two_newlines : list ritem := [Lit NL; Lit NL].

(** [r'\n(#{1,6})'] and [r'\n\n\1'] *)
Definition re_heading_before : regex :=
  [Rep (only NL) 1%nat (Some 1%nat); GOpen 1%nat; Rep (only HASH) 1%nat (Some 6%nat); GClose 1%nat].
Definition to_heading_before : list ritem := [Lit NL; Lit NL; Ref 1%nat].

(** The third pattern: group 1 is [#{1,6}] followed by a greedy [.] star,
    then a newline, then group 2, one character of [[^\n#]]; the template
    is [r'\1\n\n\2']. *)
Definition re_heading_after : regex :=
  [GOpen 1%nat; Rep (only HASH) 1%nat (Some 6%nat); Rep dot 0%nat None; GClose 1%nat;
   Rep (only NL) 1%nat (Some 1%nat);
   GOpen 2%nat; Rep (fun c => negb ((c =? NL) || (c =? HASH))) 1%nat (Some 1%nat);
   GClose 2%nat].
Definition to_heading_after : list ritem := [Ref 1%nat; Lit NL; Lit NL; Ref 2%nat].

(** [r'\n(\s*[-*+])'] and [r'\n\n\1'] *)
Definition re_list_item : regex :=
  [Rep (only NL) 1%nat (Some 1%nat); GOpen 1%nat; Rep ws 0%nat None;
   Rep (fun c => (c =? DASH) || (c =? STAR) || (c =? PLUS)) 1%nat (Some 1%nat);
   GClose 1%nat].
Definition to_list_item : list ritem := [Lit NL; Lit NL; Ref 1%nat].

(** ['|' in line and line.strip().startswith('|')] *)
Definition is_table_line (line : str) : bool :=
  contains PIPE line && startswith1 PIPE (strip line).

(** The loop over [lines]: the state is [prev_was_table]; the result is what
    the loop appends to [cleaned_lines]. *)
Fixpoint table_lines (lines : list str) (prev_was_table : bool) : list str :=
  match lines with
  | [] => []
  | line :: rest =>
      let is_table := is_table_line line in
      (if is_table && negb prev_was_table then [[]]
       else if negb is_table && prev_was_table then [[]]
       else [])
      ++ line :: table_lines rest is_table
  end.

(** The four substitutions, in source order. *)
Definition remove_excessive_newlines (s : str) : str :=
  sub re_newlines to_two_newlines s.
Definition fix_heading_before (s : str) : str :=
  sub re_heading_before to_heading_before s.
Definition fix_heading_after (s : str) : str :=
  sub re_heading_after to_heading_after s.
Definition fix_list_formatting (s : str) : str :=
  sub re_list_item to_list_item s.

Definition _clean_markdown (markdown_content : str) : str :=
  let markdown_content := remove_excessive_newlines markdown_content in
  let markdown_content := fix_heading_before markdown_content in
  let markdown_content := fix_heading_after markdown_content in
  let markdown_content := fix_list_formatting markdown_content in
  let lines := split_nl markdown_content in
  let cleaned_lines := table_lines lines false in
  strip (join [NL] cleaned_lines).

(* ------------------------------------------------------------------ *)
(** ** The layout extractor's data: [page.get_text("dict")] *)

(** A span, a line, a block and the page dictionary; a key that may be
    absent (the source reads it with [.get] or tests [in]) is an [option].
    Font sizes are compared with integer constants only, so a size is a
    rational number; [flags] is PyMuPDF's integer bit mask. *)
Record span := mk_span {
  span_text : option str;
  span_size : option Q;
  span_flags : option Z }.

Record line := mk_line { line_spans : option (list span) }.

Record block := mk_block { block_lines : option (list line) }.

Record text_dict := mk_text_dict { dict_blocks : option (list block) }.

(** The options dictionary, with the three keys the source reads:
    [table_style] is only tested for truth, [columns] only passed to
    [str()]. *)
Record py_options := mk_options {
  preserve_images : option bool;
  table_style : option bool;
  columns : option str }.

Definition empty_options : py_options := mk_options None None None.

Definition get {A} (o : option A) (default : A) : A :=
  match o with Some v => v | None => default end.

(** [a > b] on numbers *)
Definition Qgtb (a b : Q) : bool := negb (Qle_bool a b).

(* ------------------------------------------------------------------ *)
(** ** [_process_pdf_blocks] *)

(** The body of [for span in line.get("spans", [])]: the state is
    [line_text]. *)
Definition span_step (line_text : str) (sp : span) : str :=
  let text := strip (get (span_text sp) []) in
  if negb (truthy text) then line_text
  else
    let font_size := get (span_size sp) 12%Q in
    let font_flags := get (span_flags sp) 0%Z in
    if Qgtb font_size 16 then py "# " ++ text
    else if Qgtb font_size 14 then py "## " ++ text
    else if Qgtb font_size 12 then py "### " ++ text
    else
      let text :=
        if negb (Z.land font_flags (2 ^ 4) =? 0)%Z
        then py "**" ++ text ++ py "**" else text in
      let text :=
        if negb (Z.land font_flags (2 ^ 1) =? 0)%Z
        then py "*" ++ text ++ py "*" else text in
      line_text ++ text ++ py " ".

(** [line_text] after the loop over the spans of one line. *)
Definition line_text_of (spans : list span) : str :=
  fold_left span_step spans [].

(** The body of [for line in block["lines"]]: what is appended to
    [markdown_lines]. *)
Definition line_step (markdown_lines : list str) (l : line) : list str :=
  let line_text := line_text_of (get (line_spans l) []) in
  if truthy (strip line_text) then markdown_lines ++ [strip line_text]
  else markdown_lines.

(** The body of [for block in blocks.get("blocks", [])]. *)
Definition block_step (markdown_lines : list str) (b : block) : list str :=
  match block_lines b with
  | None => markdown_lines
  | Some lines => fold_left line_step lines markdown_lines
  end.

Definition _process_pdf_blocks (blocks : text_dict) (page_num : nat)
           (options : py_options) : str :=
  let markdown_lines := fold_left block_step (get (dict_blocks blocks) []) [] in
  join [NL; NL] markdown_lines.

(* ------------------------------------------------------------------ *)
(** ** Joining the pages (the loop of [pdf_to_markdown]) *)

(** [f"\n\n---\n*Page {n}*\n\n"] *)
Definition page_marker (n : nat) : str :=
  [NL; NL] ++ py "---" ++ [NL] ++ py "*Page " ++ str_of_nat n ++ py "*"
  ++ [NL; NL].

(** [for page_num in range(len(doc))], from [page_num] on, with the pages
    still to visit; the state is the list [markdown_content]. *)
Fixpoint pages_loop (pages : list text_dict) (page_num : nat)
         (options : py_options) (markdown_content : list str) : list str :=
  match pages with
  | [] => markdown_content
  | blocks :: rest =>
      let page_markdown :=
        _process_pdf_blocks blocks (page_num + 1) options in
      let markdown_content :=
        if truthy (strip page_markdown) then
          (if Nat.ltb 0 page_num
           then markdown_content ++ [page_marker (page_num + 1)]
           else markdown_content) ++ [page_markdown]
        else markdown_content in
      pages_loop rest (S page_num) options markdown_content
  end.

(** [full_markdown] as written to the output file. *)
Definition pdf_markdown (doc : list text_dict) (options : py_options) : str :=
  _clean_markdown (join [] (pages_loop doc 0 options [])).

(* ------------------------------------------------------------------ *)
(** ** Exceptions, results and the effects of the converter *)

(** The exceptions the program raises or receives; each carries what
    [str(e)] returns, [CalledProcessError] also the captured [stderr]. *)
Inductive exn :=
| FileNotFoundError (msg : str)
| ValueError (msg : str)
| RuntimeError (msg : str)
| CalledProcessError (msg stderr : str)
| OtherError (msg : str).

Definition exn_str (e : exn) : str :=
  match e with
  | FileNotFoundError m | ValueError m | RuntimeError m
  | CalledProcessError m _ | OtherError m => m
  end.

(** Values of the [metadata] dictionary. *)
Inductive meta_value :=
| MStr (s : str)
| MInt (n : nat).

(** A result dictionary; the keys a record may lack are [option]s. *)
Record result := mk_result {
  success : bool;
  input_path : str;
  output_path : option str;
  conversion_type : option str;
  pages_processed : option nat;
  duration : option Q;
  file_size : option N;
  word_count : option nat;
  char_count : option nat;
  metadata : list (str * meta_value);
  error : option str }.

(** The two handlers of the [supported_formats] table. *)
Inductive handler := PdfHandler | OfficeHandler.

(** The operating system, PyMuPDF, pandoc and [pathlib], as the program
    uses them.  [world] is the state of the file system and the clock. *)
Class Platform := {
  world : Type;
  (** [os.path.exists(p)] *)
  os_path_exists : str -> world -> bool;
  (** [Path(p).is_file()] *)
  path_is_file : str -> world -> bool;
  (** [os.makedirs(p, exist_ok=True)] *)
  os_makedirs : str -> world -> (exn + unit) * world;
  (** [Path(p).mkdir(parents=True, exist_ok=True)] *)
  path_mkdir : str -> world -> (exn + unit) * world;
  (** [list(Path(p).rglob('*'))], as strings *)
  path_rglob : str -> world -> (exn + list str) * world;
  (** [fitz.open(p)]: the text dictionaries of the pages *)
  fitz_open : str -> world -> (exn + list text_dict) * world;
  (** [len(doc)] once [doc.close()] has been called: the source reads the
      page count of the closed document at both places where the result
      dictionary needs it.  PyMuPDF answers a closed document with
      [ValueError('document closed')] *)
  fitz_len_closed : list text_dict -> exn + nat;
  (** [open(p, 'w', encoding='utf-8').write(s)] *)
  write_text : str -> str -> world -> (exn + unit) * world;
  (** [open(p, 'r', encoding='utf-8').read()] *)
  read_text : str -> world -> (exn + str) * world;
  (** [os.path.getsize(p)] *)
  os_path_getsize : str -> world -> (exn + N) * world;
  (** [datetime.now()], in seconds *)
  datetime_now : world -> (exn + Q) * world;
  (** [subprocess.run(cmd, capture_output=True, text=True, check=True)] *)
  subprocess_run : list str -> world -> (exn + unit) * world;
  (** [Path(p).suffix] *)
  path_suffix : str -> str;
  (** [s.lower()] *)
  str_lower : str -> str;
  (** [str(Path(p).with_suffix('.md'))] *)
  path_with_suffix_md : str -> str;
  (** [os.path.dirname(p)] *)
  os_path_dirname : str -> str;
  (** [str(Path(out) / Path(f).relative_to(Path(inp)).with_suffix('.md'))] *)
  batch_output_file : str -> str -> str -> str
}.

Section Converter.

Context {P : Platform}.

(** State and exceptions. *)
Definition M (A : Type) : Type := world -> (exn + A) * world.

Definition ret {A} (a : A) : M A := fun w => (inr a, w).

Definition raise {A} (e : exn) : M A := fun w => (inl e, w).

Definition bind {A B} (m : M A) (k : A -> M B) : M B :=
  fun w => match m w with
           | (inr a, w') => k a w'
           | (inl e, w') => (inl e, w')
           end.

(** [try: m except Exception as e: h e] *)
Definition catch {A} (m : M A) (h : exn -> M A) : M A :=
  fun w => match m w with
           | (inr a, w') => (inr a, w')
           | (inl e, w') => h e w'
           end.

(** A test of the current state. *)
Definition query {A} (f : world -> A) : M A := fun w => (inr (f w), w).

(** A call that returns or raises without touching the state. *)
Definition lift {A} (r : exn + A) : M A := fun w => (r, w).

Notation "x <- m ;; k" := (bind m (fun x => k))
  (at level 61, m at next level, right associativity).
Notation "m ;;; k" := (bind m (fun _ => k))
  (at level 61, right associativity).

(** [self.supported_formats], in source order. *)
Definition supported_formats : list (str * handler) :=
  [ (py ".pdf", PdfHandler);
    (py ".docx", OfficeHandler);
    (py ".doc", OfficeHandler);
    (py ".pptx", OfficeHandler);
    (py ".ppt", OfficeHandler);
    (py ".xlsx", OfficeHandler);
    (py ".xls", OfficeHandler);
    (py ".odt", OfficeHandler);
    (py ".odp", OfficeHandler);
    (py ".ods", OfficeHandler) ].

(** [d.get(k)] on a dictionary with string keys. *)
Fixpoint dict_get {A} (k : str) (d : list (str * A)) : option A :=
  match d with
  | [] => None
  | (k', v) :: d' => if str_eqb k' k then Some v else dict_get k d'
  end.

(** [k in d] *)
Definition dict_mem {A} (k : str) (d : list (str * A)) : bool :=
  match dict_get k d with Some _ => true | None => false end.

(** [s or '.'] *)
Definition or_dot (s : str) : str := if truthy s then s else py ".".

Definition pdf_to_markdown (pdf_path output_path : str)
           (options : py_options) : M result :=
  start_time <- datetime_now ;;
  doc <- fitz_open pdf_path ;;
  let markdown_content := pages_loop doc 0 options [] in
  let full_markdown := join [] markdown_content in
  let full_markdown := _clean_markdown full_markdown in
  write_text output_path full_markdown ;;;
  pages <- lift (fitz_len_closed doc) ;;
  now <- datetime_now ;;
  size <- os_path_getsize output_path ;;
  source_pages <- lift (fitz_len_closed doc) ;;
  ret {| success := true;
         input_path := pdf_path;
         output_path := Some output_path;
         conversion_type := Some (py "pdf_to_markdown");
         pages_processed := Some pages;
         duration := Some (now - start_time)%Q;
         file_size := Some size;
         word_count := Some (List.length (split_ws full_markdown));
         char_count := Some (List.length full_markdown);
         metadata := [ (py "generator", MStr (py "pymupdf"));
                       (py "source_pages", MInt source_pages) ];
         error := None |}.

Definition _get_pandoc_format (file_path : str) : str :=
  let ext := str_lower (path_suffix file_path) in
  let format_map :=
    [ (py ".docx", py "docx"); (py ".doc", py "doc"); (py ".odt", py "odt");
      (py ".pptx", py "pptx"); (py ".ppt", py "ppt"); (py ".odp", py "odp");
      (py ".xlsx", py "xlsx"); (py ".xls", py "xls"); (py ".ods", py "ods") ] in
  get (dict_get ext format_map) (py "docx").

Definition office_to_markdown (office_path output_path : str)
           (options : py_options) : M result :=
  start_time <- datetime_now ;;
  catch
    (let cmd :=
       [ py "pandoc"; py "-f"; _get_pandoc_format office_path;
         py "-t"; py "markdown"; py "--wrap=none";
         py "--extract-media=./images"; office_path; py "-o"; output_path ] in
     let cmd :=
       if get (preserve_images options) true
       then cmd ++ [py "--extract-media"; or_dot (os_path_dirname output_path)]
       else cmd in
     let cmd :=
       if get (table_style options) false
       then cmd ++ [py "--columns"; get (columns options) (py "80")]
       else cmd in
     subprocess_run cmd ;;;
     markdown_content <- read_text output_path ;;
     let markdown_content := _clean_markdown markdown_content in
     write_text output_path markdown_content ;;;
     now <- datetime_now ;;
     size <- os_path_getsize output_path ;;
     ret {| success := true;
            input_path := office_path;
            output_path := Some output_path;
            conversion_type := Some (py "office_to_markdown");
            pages_processed := None;
            duration := Some (now - start_time)%Q;
            file_size := Some size;
            word_count := Some (List.length (split_ws markdown_content));
            char_count := Some (List.length markdown_content);
            metadata := [ (py "generator", MStr (py "pandoc"));
                          (py "source_format", MStr (path_suffix office_path)) ];
            error := None |})
    (fun e =>
       match e with
       | CalledProcessError _ stderr =>
           raise (RuntimeError (py "Pandoc conversion failed: " ++ stderr))
       | _ =>
           raise (RuntimeError (py "Office conversion failed: " ++ exn_str e))
       end).

Definition run_handler (h : handler) : str -> str -> py_options -> M result :=
  match h with
  | PdfHandler => pdf_to_markdown
  | OfficeHandler => office_to_markdown
  end.

Definition convert_to_markdown (input_path : str) (output_path : option str)
           (options : option py_options) : M result :=
  found <- query (os_path_exists input_path) ;;
  if negb found
  then raise (FileNotFoundError (py "Input file not found: " ++ input_path))
  else
    let file_ext := str_lower (path_suffix input_path) in
    match dict_get file_ext supported_formats with
    | None => raise (ValueError (py "Unsupported file format: " ++ file_ext))
    | Some converter_func =>
        let output_path :=
          match output_path with
          | None => path_with_suffix_md input_path
          | Some o => o
          end in
        os_makedirs (or_dot (os_path_dirname output_path)) ;;;
        run_handler converter_func input_path output_path
                    (get options empty_options)
    end.

(** The loop of [batch_convert] over the paths [rglob] yields; the state is
    the list [results]. *)
Fixpoint batch_loop (input_dir output_dir : str) (options : option py_options)
         (files : list str) (results : list result) : M (list result) :=
  match files with
  | [] => ret results
  | file_path :: rest =>
      is_file <- query (path_is_file file_path) ;;
      if is_file
         && dict_mem (str_lower (path_suffix file_path)) supported_formats
      then
        let output_file := batch_output_file input_dir output_dir file_path in
        r <- catch (convert_to_markdown file_path (Some output_file) options)
               (fun e =>
                  ret {| success := false;
                         input_path := file_path;
                         output_path := None;
                         conversion_type := None;
                         pages_processed := None;
                         duration := None;
                         file_size := None;
                         word_count := None;
                         char_count := None;
                         metadata := [];
                         error := Some (exn_str e) |}) ;;
        batch_loop input_dir output_dir options rest (results ++ [r])
      else batch_loop input_dir output_dir options rest results
  end.

Definition batch_convert (input_dir output_dir : str)
           (options : option py_options) : M (list result) :=
  path_mkdir output_dir ;;;
  files <- path_rglob input_dir ;;
  batch_loop input_dir output_dir options files [].

End Converter.

(* ------------------------------------------------------------------ *)
(** ** Readings of the specification, to compare the code with *)

(** A span that is not skipped and whose size puts it in a heading branch. *)
Definition is_blank_span (sp : span) : bool :=
  negb (truthy (strip (get (span_text sp) []))).

Definition is_heading_span (sp : span) : bool :=
  negb (is_blank_span sp) && Qgtb (get (span_size sp) 12%Q) 12.

(** The heading rendering of a span: the marker of its level, then its
    trimmed text. *)
Definition heading_text (sp : span) : str :=
  let text := strip (get (span_text sp) []) in
  let font_size := get (span_size sp) 12%Q in
  (if Qgtb font_size 16 then py "# "
   else if Qgtb font_size 14 then py "## " else py "### ") ++ text.

(** One more newline in front of every newline that a [#] follows, whatever
    comes before that newline. *)
Fixpoint newline_before_headings (s : str) : str :=
  match s with
  | [] => []
  | c :: s' =>
      if (c =? NL) && startswith1 HASH s'
      then NL :: NL :: newline_before_headings s'
      else c :: newline_before_headings s'
  end.

(** The characters the heading, list and table rules look for. *)
Definition is_marker (c : N) : bool :=
  (c =? HASH) || (c =? DASH) || (c =? STAR) || (c =? PLUS) || (c =? PIPE).

Definition marker_free (s : str) : bool :=
  forallb (fun c => negb (is_marker c)) s.

(** The length of the run of newlines [s] starts with, and the strings with
    no run of three. *)
Definition nlrun (s : str) : nat := greedy (only NL) None s.

Fixpoint no3 (s : str) : bool :=
  match s with
  | [] => true
  | _ :: s' => Nat.ltb (nlrun s) 3 && no3 s'
  end.

(** A pattern that cannot match without a character from [bad]: one of its
    atoms takes such a character at least once. *)
Inductive requires (bad : N -> bool) : regex -> Prop :=
| requires_here cls lo hi r :
    (forall c, cls c = true -> bad c = true) ->
    requires bad (Rep cls (S lo) hi :: r)
| requires_later a r :
    requires bad r -> requires bad (a :: r).

(** What page number [k], with page text [md], adds to the document when a
    marker goes before every non-empty page other than page 1. *)
Definition page_chunks (k : nat) (md : str) : list str :=
  if truthy (strip md)
  then (if Nat.ltb 1 k then [page_marker k] else []) ++ [md]
  else [].

(** Sample data: a span with all three keys, a line, a one-block page. *)
Definition a_span (t : string) (size : Q) (flags : Z) : span :=
  mk_span (Some (py t)) (Some size) (Some flags).

Definition a_line (spans : list span) : line := mk_line (Some spans).

Definition a_page (lines : list (list span)) : text_dict :=
  mk_text_dict (Some [mk_block (Some (map a_line lines))]).

(* ------------------------------------------------------------------ *)
(** ** Descriptions of the rules, the table loop and the line loop *)

(** A string with no white space at either end, and not empty. *)
Definition solid (s : str) : Prop := s <> [] /\ strip s = s.

(** The class [[-*+]] of the list rule. *)
Definition is_list_marker (c : N) : bool :=
  (c =? DASH) || (c =? STAR) || (c =? PLUS).

(** After optional white space, a list marker. *)
Definition starts_item (s : str) : bool :=
  match lstrip s with
  | m :: _ => is_list_marker m
  | [] => false
  end.

(** One more newline in front of a newline that white space and a list
    marker follow; [inrun] says that the scan is inside the white space of
    such a place, which is copied as it is. *)
Fixpoint list_gap (s : str) (inrun : bool) : str :=
  match s with
  | [] => []
  | c :: s' =>
      if (c =? NL) && negb inrun && starts_item s'
      then NL :: NL :: list_gap s' true
      else c :: list_gap s' (inrun && isspace c)
  end.

(** The next character exists and is neither a newline nor [#]. *)
Definition starts_text (s : str) : bool :=
  match s with
  | c :: _ => negb ((c =? NL) || (c =? HASH))
  | [] => false
  end.

(** One more newline after a line that has a [#] in it, when the next line
    starts with text; [seen] says that the current line has had a [#]. *)
Fixpoint heading_gap (s : str) (seen : bool) : str :=
  match s with
  | [] => []
  | c :: s' =>
      if c =? NL
      then if seen && starts_text s'
           then NL :: NL :: heading_gap s' false
           else NL :: heading_gap s' false
      else c :: heading_gap s' (seen || (c =? HASH))
  end.

(** The number of characters before the first newline of [s], and whether
    that newline is there with text right after it. *)
Definition line_len (s : str) : nat := greedy dot None s.

Definition text_follows (s : str) : bool :=
  match skipn (line_len s) s with
  | _ :: r => starts_text r
  | [] => false
  end.

(** Two neighbouring lines of which one only is a table line: the other
    one is empty. *)
Definition boundary_ok (x y : str) : bool :=
  if Bool.eqb (is_table_line x) (is_table_line y) then true
  else if is_table_line x then negb (truthy y) else negb (truthy x).

(** Every two neighbouring lines of [prev :: lines] pass [boundary_ok]. *)
Fixpoint isolated (prev : str) (lines : list str) : bool :=
  match lines with
  | [] => true
  | x :: rest => boundary_ok prev x && isolated x rest
  end.

(** Every two neighbouring lines of [lines] pass [boundary_ok]. *)
Definition tables_isolated (lines : list str) : bool :=
  match lines with
  | [] => true
  | x :: rest => isolated x rest
  end.

(** [out] is [lines] with empty lines put in: every line of [lines] is kept,
    in its place, and every other line of [out] is empty. *)
Inductive adds_empty_lines : list str -> list str -> Prop :=
| adds_none : adds_empty_lines [] []
| adds_keep l lines out :
    adds_empty_lines lines out -> adds_empty_lines (l :: lines) (l :: out)
| adds_empty lines out :
    adds_empty_lines lines out -> adds_empty_lines lines ([] :: out).

(** The text a body span adds to its line, before the space. *)
Definition body_text (sp : span) : str :=
  let text := strip (get (span_text sp) []) in
  let font_flags := get (span_flags sp) 0%Z in
  let text :=
    if negb (Z.land font_flags (2 ^ 4) =? 0)%Z
    then py "**" ++ text ++ py "**" else text in
  if negb (Z.land font_flags (2 ^ 1) =? 0)%Z
  then py "*" ++ text ++ py "*" else text.

(** The list [markdown_lines] at the end of [_process_pdf_blocks]. *)
Definition markdown_lines_of (blocks : text_dict) : list str :=
  fold_left block_step (get (dict_blocks blocks) []) [].

(** What every record of a successful conversion has. *)
Definition good_record (input out : str) (r : result) : Prop :=
  success r = true
  /\ input_path r = input
  /\ output_path r = Some out
  /\ error r = None
  /\ exists wc cc, word_count r = Some wc /\ char_count r = Some cc
                   /\ (wc <= cc)%nat.

(** A record of the batch: of a success, or of a failure with its
    message. *)
Definition batch_record (r : result) : Prop :=
  (success r = true /\ error r = None)
  \/ (success r = false /\ error r <> None /\ output_path r = None).

(** The record the batch keeps of one conversion: the result when the
    conversion returns, the failure record with the message when it
    raises. *)
Definition record_of (file_path : str) (outcome : exn + result) : result :=
  match outcome with
  | inr r => r
  | inl e =>
      {| success := false;
         input_path := file_path;
         output_path := None;
         conversion_type := None;
         pages_processed := None;
         duration := None;
         file_size := None;
         word_count := None;
         char_count := None;
         metadata := [];
         error := Some (exn_str e) |}
  end.

(** The characters of a string that are not white space. *)
Definition visible (s : str) : str := filter (fun c => negb (isspace c)) s.

(** What one line of the extractor adds to the lines of the page. *)
Definition line_out (l : line) : list str :=
  let line_text := strip (line_text_of (get (line_spans l) [])) in
  if truthy line_text then [line_text] else [].

(* ------------------------------------------------------------------ *)
(** ** Blocks and runs of newlines *)

(** A text seen as blocks, maximal pieces without a newline, separated by
    runs of newlines: a first block, then for every run its length and the
    block after it. *)
Definition sites := list (nat * str).

(** The text of the runs and their blocks, and of a first block with
    them. *)
Fixpoint rest_text (l : sites) : str :=
  match l with
  | [] => []
  | (r, b) :: l' => repeat NL r ++ b ++ rest_text l'
  end.

Definition render (b : str) (l : sites) : str := b ++ rest_text l.

(** The blocks have no newline, the runs are not empty, and only the last
    block after a run may be empty. *)
Fixpoint wf_sites (l : sites) : Prop :=
  match l with
  | [] => True
  | (r, b) :: l' =>
      (1 <= r)%nat /\ forallb dot b = true /\ (b = [] -> l' = [])
      /\ wf_sites l'
  end.

Definition wf (b : str) (l : sites) : Prop :=
  forallb dot b = true /\ wf_sites l.

(** The blocks and runs of a string. *)
Fixpoint parse (s : str) : str * sites :=
  match s with
  | [] => ([], [])
  | c :: s' =>
      let (b, l) := parse s' in
      if c =? NL
      then match b, l with
           | [], (r, b') :: l' => ([], (S r, b') :: l')
           | _, _ => ([], (1%nat, b) :: l)
           end
      else (c :: b, l)
  end.

(** White space only. *)
Definition blank (b : str) : bool := forallb isspace b.

(** After the white space that follows, does a list marker come?  Newlines
    are white space, so the answer does not depend on the runs. *)
Fixpoint ahead (b : str) (l : sites) : bool :=
  if blank b
  then match l with
       | [] => false
       | (_, b') :: l' => ahead b' l'
       end
  else starts_item b.

(** [int(b)] *)
Definition bnat (b : bool) : nat := if b then 1%nat else 0%nat.

(** What one pass makes of a run of [r] newlines in front of block [b]:
    rule 1 caps it at two, rule 2 adds one when [b] starts with [#], rule 3
    adds one to a single newline between a line with a [#] and text, rule 4
    adds one when the run opens the white space in front of a list marker
    ([fire]), and the table loop adds an empty line on each side where a
    table line meets a line that is not one. *)
Definition site_run (hash_before table_before fire : bool) (b : str)
           (r : nat) : nat :=
  let r1 := Nat.min r 2 in
  let r2 := (r1 + bnat (startswith1 HASH b))%nat in
  let r3 := (r2 + bnat (hash_before && Nat.eqb r2 1 && starts_text b))%nat in
  let r4 := (r3 + bnat fire)%nat in
  (r4 + (if Nat.eqb r4 1 then bnat (xorb table_before (is_table_line b))
         else bnat table_before + bnat (is_table_line b)))%nat.

(** One pass over the runs; [a] is the block before the run, [st] says that
    the run lies inside white space that rule 4 has already matched. *)
Fixpoint pass (a : str) (st : bool) (l : sites) : sites :=
  match l with
  | [] => []
  | (r, b) :: l' =>
      let fire := negb st && ahead b l' in
      (site_run (contains HASH a) (is_table_line a) fire b r, b)
      :: pass b ((st || fire) && blank b) l'
  end.

(** The five steps of the pass, each on the runs. *)
Definition cap_runs (l : sites) : sites :=
  map (fun rb => (Nat.min (fst rb) 2, snd rb)) l.

Definition heading_before_runs (l : sites) : sites :=
  map (fun rb => ((fst rb + bnat (startswith1 HASH (snd rb)))%nat, snd rb)) l.

Fixpoint heading_after_runs (seen : bool) (l : sites) : sites :=
  match l with
  | [] => []
  | (r, b) :: l' =>
      ((r + bnat (seen && Nat.eqb r 1 && starts_text b))%nat, b)
      :: heading_after_runs (contains HASH b) l'
  end.

Fixpoint list_runs (st : bool) (l : sites) : sites :=
  match l with
  | [] => []
  | (r, b) :: l' =>
      let fire := negb st && ahead b l' in
      ((r + bnat fire)%nat, b) :: list_runs ((st || fire) && blank b) l'
  end.

Fixpoint table_runs (prev : bool) (l : sites) : sites :=
  match l with
  | [] => []
  | (r, b) :: l' =>
      ((r + (if Nat.eqb r 1 then bnat (xorb prev (is_table_line b))
             else bnat prev + bnat (is_table_line b)))%nat, b)
      :: table_runs (is_table_line b) l'
  end.

(** Trimming, on blocks and runs: [lstrip] drops the blank blocks at the
    start with their runs and trims the first block that is not blank;
    [rstrip] does the same from the end; [strip] does both. *)
Fixpoint ltrim (b : str) (l : sites) : str * sites :=
  if blank b
  then match l with
       | [] => ([], [])
       | (_, b') :: l' => ltrim b' l'
       end
  else (lstrip b, l).

(** From block [b] on, all is white space. *)
Fixpoint blank_from (b : str) (l : sites) : bool :=
  blank b && match l with
             | [] => true
             | (_, b') :: l' => blank_from b' l'
             end.

Fixpoint rtrim (b : str) (l : sites) : str * sites :=
  match l with
  | [] => (rstrip b, [])
  | (r, b') :: l' =>
      if blank_from b' l' then (rstrip b, [])
      else let (c, m) := rtrim b' l' in (b, (r, c) :: m)
  end.

Definition trim (b : str) (l : sites) : str * sites :=
  let (c, m) := ltrim b l in rtrim c m.

(** The runs on which the first pass is final: a run of two or more
    newlines; a single newline in front of a block that does not start with
    [#], when either the block before has a [#] and the block after is not
    empty (rule 3 doubles the newline, and the double newline stays), or no
    rule has anything to add: the run does not open the white space in
    front of a list marker, and the blocks around it are both table lines or
    both not.  [a] and [st] are as in [pass]. *)
Fixpoint settled (a : str) (st : bool) (l : sites) : bool :=
  match l with
  | [] => true
  | (r, b) :: l' =>
      let fire := negb st && ahead b l' in
      (Nat.leb 2 r
       || negb (startswith1 HASH b)
          && ((contains HASH a && starts_text b)
              || (negb fire
                  && Bool.eqb (is_table_line a) (is_table_line b))))
      && settled b ((st || fire) && blank b) l'
  end.

(** Blocks and runs that trimming leaves as they are. *)
Definition tidy (c : str) (m : sites) : Prop :=
  ltrim c m = (c, m) /\ rtrim c m = (c, m).

(* ------------------------------------------------------------------ *)
(** ** An in-memory platform *)

(** A small file system to run the converter on: a list of paths with what
    is stored there.  Paths are relative, [/]-separated ASCII strings; a PDF
    file is stored as the pages PyMuPDF reads from it, an office document as
    the Markdown pandoc makes of it; a closed PyMuPDF document refuses to
    give its length, and the clock stands still. *)
Module Mem.

Inductive node :=
| PdfFile (pages : list text_dict)
| OfficeFile (markdown : str)
| TextFile (content : str)
| Dir.

Definition fs := list (str * node).

(** The text before and after the first [c] of [s]. *)
Fixpoint break (c : N) (s : str) : option (str * str) :=
  match s with
  | [] => None
  | x :: s' =>
      if x =? c then Some ([], s')
      else match break c s' with
           | Some (a, b) => Some (x :: a, b)
           | None => None
           end
  end.

(** The text before and after the last [c] of [s]. *)
Definition rbreak (c : N) (s : str) : option (str * str) :=
  match break c (rev s) with
  | Some (a, b) => Some (rev b, rev a)
  | None => None
  end.

Definition SLASH : N := 47.
Definition DOT : N := 46.

Definition name (p : str) : str :=
  match rbreak SLASH p with Some (_, n) => n | None => p end.

Definition dirname (p : str) : str :=
  match rbreak SLASH p with Some (d, _) => d | None => [] end.

(** From the last dot of the name, when it is neither its first nor its
    last character. *)
Definition suffix (p : str) : str :=
  match rbreak DOT (name p) with
  | Some (stem, ext) => if truthy stem && truthy ext then DOT :: ext else []
  | None => []
  end.

Definition lower (s : str) : str :=
  map (fun c => if (65 <=? c) && (c <=? 90) then c + 32 else c) s.

Definition with_suffix_md (p : str) : str :=
  firstn (List.length p - List.length (suffix p)) p ++ py ".md".

Definition output_file (input_dir output_dir file_path : str) : str :=
  output_dir ++ [SLASH]
  ++ with_suffix_md (skipn (List.length input_dir + 1) file_path).

Fixpoint find (p : str) (w : fs) : option node :=
  match w with
  | [] => None
  | (q, n) :: w' => if str_eqb q p then Some n else find p w'
  end.

Fixpoint store (p : str) (n : node) (w : fs) : fs :=
  match w with
  | [] => [(p, n)]
  | (q, m) :: w' => if str_eqb q p then (p, n) :: w' else (q, m) :: store p n w'
  end.

Fixpoint starts_with (pre s : str) : bool :=
  match pre, s with
  | [], _ => true
  | a :: pre', b :: s' => (a =? b) && starts_with pre' s'
  | _ :: _, [] => false
  end.

Definition exists_ (p : str) (w : fs) : bool :=
  match find p w with Some _ => true | None => false end.

Definition is_file (p : str) (w : fs) : bool :=
  match find p w with
  | Some (PdfFile _) | Some (OfficeFile _) | Some (TextFile _) => true
  | _ => false
  end.

Definition makedirs (p : str) (w : fs) : (exn + unit) * fs :=
  (inr tt, if exists_ p w then w else w ++ [(p, Dir)]).

Definition rglob (p : str) (w : fs) : (exn + list str) * fs :=
  (inr (filter (starts_with (p ++ [SLASH])) (map fst w)), w).

Definition open_pdf (p : str) (w : fs) : (exn + list text_dict) * fs :=
  match find p w with
  | Some (PdfFile pages) => (inr pages, w)
  | _ => (inl (OtherError (py "cannot open " ++ p)), w)
  end.

Definition write (p content : str) (w : fs) : (exn + unit) * fs :=
  (inr tt, store p (TextFile content) w).

Definition read (p : str) (w : fs) : (exn + str) * fs :=
  match find p w with
  | Some (TextFile content) => (inr content, w)
  | _ => (inl (FileNotFoundError p), w)
  end.

Definition getsize (p : str) (w : fs) : (exn + N) * fs :=
  match find p w with
  | Some (TextFile content) => (inr (N.of_nat (List.length content)), w)
  | Some _ => (inr 0, w)
  | None => (inl (FileNotFoundError p), w)
  end.

Definition now (w : fs) : (exn + Q) * fs := (inr 0%Q, w).

(** [pandoc ... <input> -o <output> ...]: the input and the output are the
    arguments at positions 7 and 9 of the command the converter builds.
    Pandoc writes the Markdown of an office document and fails on anything
    else. *)
Definition run (cmd : list str) (w : fs) : (exn + unit) * fs :=
  match nth_error cmd 7, nth_error cmd 9 with
  | Some input, Some out =>
      match find input w with
      | Some (OfficeFile markdown) =>
          (inr tt, store out (TextFile markdown) w)
      | _ =>
          (inl (CalledProcessError (py "exit status 1")
                                   (py "pandoc: cannot read " ++ input)), w)
      end
  | _, _ =>
      (inl (CalledProcessError (py "exit status 6")
                               (py "pandoc: bad arguments")), w)
  end.

(** [len(doc)] on a closed document. *)
Definition len_closed (doc : list text_dict) : exn + nat :=
  inl (ValueError (py "document closed")).

#[export] Instance platform : Platform := {|
  world := fs;
  os_path_exists := exists_;
  path_is_file := is_file;
  os_makedirs := makedirs;
  path_mkdir := makedirs;
  path_rglob := rglob;
  fitz_open := open_pdf;
  fitz_len_closed := len_closed;
  write_text := write;
  read_text := read;
  os_path_getsize := getsize;
  datetime_now := now;
  subprocess_run := run;
  path_suffix := suffix;
  str_lower := lower;
  path_with_suffix_md := with_suffix_md;
  os_path_dirname := dirname;
  batch_output_file := output_file
|}.

(** A directory [in] with one PDF of one page and one text file. *)
Definition sample : fs :=
  [ (py "in", Dir);
    (py "in/a.pdf", PdfFile [a_page [[a_span "Hello" 10 0]]]);
    (py "in/b.txt", TextFile (py "plain")) ].

(** The record the batch over [in] makes for [in/a.pdf], and the file
    system after that batch: the Markdown has been written when the closed
    document is asked for its length. *)
Definition sample_result : result :=
  {| success := false;
     input_path := py "in/a.pdf";
     output_path := None;
     conversion_type := None;
     pages_processed := None;
     duration := None;
     file_size := None;
     word_count := None;
     char_count := None;
     metadata := [];
     error := Some (py "document closed") |}.

Definition sample_after : fs :=
  sample ++ [ (py "out", Dir); (py "out/a.md", TextFile (py "Hello")) ].

End Mem.


(* ------------------------------------------------------------------ *)
(** ** Facts about [strip] *)

Section StripFacts.

Lemma lstrip_idem (s : str) : lstrip (lstrip s) = lstrip s.
Proof.
  induction s as [|c s IH]; simpl; [reflexivity|].
  destruct (isspace c) eqn:E; [exact IH|].
  simpl. now rewrite E.
Qed.

Lemma lstrip_snoc (s : str) (c : N) :
  isspace c = false -> lstrip (s ++ [c]) = lstrip s ++ [c].
Proof.
  intros Hc. induction s as [|a s IH]; simpl.
  - now rewrite Hc.
  - destruct (isspace a); [exact IH | reflexivity].
Qed.

Lemma lstrip_app (a b : str) :
  lstrip a <> [] -> lstrip (a ++ b) = lstrip a ++ b.
Proof.
  induction a as [|c a IH]; simpl; intros H.
  - congruence.
  - destruct (isspace c); [now apply IH | reflexivity].
Qed.

Lemma rstrip_idem (s : str) : rstrip (rstrip s) = rstrip s.
Proof.
  unfold rstrip. now rewrite rev_involutive, lstrip_idem.
Qed.

Lemma rstrip_cons (c : N) (s : str) :
  isspace c = false -> rstrip (c :: s) = c :: rstrip s.
Proof.
  intros Hc. unfold rstrip. simpl.
  rewrite (lstrip_snoc _ _ Hc), rev_app_distr. reflexivity.
Qed.

Lemma rstrip_app (a b : str) :
  rstrip b <> [] -> rstrip (a ++ b) = a ++ rstrip b.
Proof.
  unfold rstrip. intros H.
  rewrite rev_app_distr, lstrip_app, rev_app_distr, rev_involutive.
  - reflexivity.
  - intros E. apply H. now rewrite E.
Qed.

Lemma strip_cons (c : N) (s : str) :
  isspace c = false -> strip (c :: s) = c :: rstrip s.
Proof.
  intros Hc. unfold strip. simpl. rewrite Hc. now apply rstrip_cons.
Qed.

Lemma rstrip_strip (s : str) : rstrip (strip s) = strip s.
Proof. unfold strip. apply rstrip_idem. Qed.

(** A marker that starts with a visible character, put in front of a
    trimmed non-empty text, is not changed by [strip]. *)
Lemma strip_marker_text (c : N) (m t : str) :
  isspace c = false -> strip t <> [] ->
  strip ((c :: m) ++ strip t) = (c :: m) ++ strip t.
Proof.
  intros Hc Ht. simpl. rewrite (strip_cons _ _ Hc). f_equal.
  rewrite rstrip_app; rewrite rstrip_strip; [reflexivity | exact Ht].
Qed.

Lemma truthy_true (s : str) : truthy s = true <-> s <> [].
Proof. destruct s; simpl; split; congruence. Qed.

End StripFacts.

(* ------------------------------------------------------------------ *)
(** ** The span classifier *)

Section Classifier.

Lemma span_step_blank (acc : str) (sp : span) :
  is_blank_span sp = true -> span_step acc sp = acc.
Proof.
  unfold is_blank_span, span_step. intros H. now rewrite H.
Qed.

Lemma span_step_heading (acc : str) (sp : span) :
  is_heading_span sp = true -> span_step acc sp = heading_text sp.
Proof.
  unfold is_heading_span, is_blank_span, span_step, heading_text.
  intros H. apply andb_prop in H. destruct H as [Hb Hs].
  rewrite negb_involutive in Hb. rewrite Hb. simpl.
  destruct (Qgtb _ 16); [reflexivity|].
  destruct (Qgtb _ 14); [reflexivity|].
  now rewrite Hs.
Qed.

Lemma fold_blank (acc : str) (post : list span) :
  forallb is_blank_span post = true -> fold_left span_step post acc = acc.
Proof.
  revert acc. induction post as [|sp post IH]; simpl; intros acc H.
  - reflexivity.
  - apply andb_prop in H. destruct H as [H1 H2].
    rewrite (span_step_blank _ _ H1). now apply IH.
Qed.

(** A body span appends to the line; it never looks at what is there. *)
Lemma span_step_body (acc : str) (sp : span) :
  is_heading_span sp = false -> span_step acc sp = acc ++ span_step [] sp.
Proof.
  unfold is_heading_span, is_blank_span, span_step. intros H.
  destruct (truthy _); simpl in *; [|now rewrite app_nil_r].
  assert (H12 : Qgtb (get (span_size sp) 12%Q) 12 = false) by exact H.
  assert (H14 : Qgtb (get (span_size sp) 12%Q) 14 = false).
  { unfold Qgtb in *. apply negb_false_iff in H12. apply negb_false_iff.
    apply Qle_bool_iff in H12. apply Qle_bool_iff.
    eapply Qle_trans; [exact H12|]. now apply Qle_bool_iff. }
  assert (H16 : Qgtb (get (span_size sp) 12%Q) 16 = false).
  { unfold Qgtb in *. apply negb_false_iff in H12. apply negb_false_iff.
    apply Qle_bool_iff in H12. apply Qle_bool_iff.
    eapply Qle_trans; [exact H12|]. now apply Qle_bool_iff. }
  rewrite H16, H14, H12. reflexivity.
Qed.

Lemma fold_body (acc : str) (post : list span) :
  forallb (fun sp => negb (is_heading_span sp)) post = true ->
  fold_left span_step post acc = acc ++ fold_left span_step post [].
Proof.
  revert acc. induction post as [|sp post IH]; simpl; intros acc H.
  - now rewrite app_nil_r.
  - apply andb_prop in H. destruct H as [H1 H2].
    apply negb_true_iff in H1.
    rewrite (IH (span_step acc sp) H2), (IH (span_step [] sp) H2).
    rewrite (span_step_body acc _ H1). now rewrite app_assoc.
Qed.

Lemma heading_text_head (sp : span) :
  exists m, heading_text sp = (HASH :: m) ++ strip (get (span_text sp) []).
Proof.
  unfold heading_text.
  destruct (Qgtb _ 16); [exists [SPACE] | destruct (Qgtb _ 14)];
    [reflexivity | exists [HASH; SPACE] | exists [HASH; HASH; SPACE]];
    reflexivity.
Qed.

End Classifier.

(* ------------------------------------------------------------------ *)
(** ** Lines with headings *)

Section HeadingLines.

Lemma heading_text_strip (h : span) (rest : str) :
  is_heading_span h = true ->
  exists c m, isspace c = false /\
              strip (heading_text h ++ rest) = c :: m
              /\ strip (heading_text h) = heading_text h.
Proof.
  intros H. destruct (heading_text_head h) as [m Hm].
  unfold is_heading_span, is_blank_span in H.
  apply andb_prop in H. destruct H as [Hb _].
  rewrite negb_involutive in Hb. apply truthy_true in Hb.
  exists HASH. eexists. split; [reflexivity|]. split.
  - rewrite Hm. simpl. rewrite strip_cons by reflexivity. reflexivity.
  - rewrite Hm. now apply strip_marker_text.
Qed.

Lemma line_text_split (pre post : list span) (h : span) :
  is_heading_span h = true ->
  forallb (fun sp => negb (is_heading_span sp)) post = true ->
  line_text_of (pre ++ h :: post) = heading_text h ++ line_text_of post.
Proof.
  intros Hh Hpost. unfold line_text_of.
  rewrite fold_left_app. simpl.
  rewrite (span_step_heading _ _ Hh).
  now apply fold_body.
Qed.

Lemma blank_not_heading (post : list span) :
  forallb is_blank_span post = true ->
  forallb (fun sp => negb (is_heading_span sp)) post = true.
Proof.
  induction post as [|sp post IH]; simpl; [reflexivity|].
  intros H. apply andb_prop in H. destruct H as [H1 H2].
  rewrite (IH H2), andb_true_r. unfold is_heading_span. now rewrite H1.
Qed.

(** C4 (as amended): when a line has a heading span, the emitted line is the
    heading rendering of the last heading span followed by the text of the
    body spans that come after it (each with its space), trimmed; the spans
    before that heading span leave no trace. *)
Theorem heading_line_keeps_later_body_spans
        (markdown_lines : list str) (pre post : list span) (h : span) :
  is_heading_span h = true ->
  forallb (fun sp => negb (is_heading_span sp)) post = true ->
  line_step markdown_lines (mk_line (Some (pre ++ h :: post)))
  = markdown_lines ++ [strip (heading_text h ++ line_text_of post)].
Proof.
  intros Hh Hpost. unfold line_step. simpl.
  rewrite (line_text_split pre post h Hh Hpost).
  destruct (heading_text_strip h (line_text_of post) Hh) as (c & m & _ & E & _).
  rewrite E. reflexivity.
Qed.

(** C9: when the last heading span of a line is also its last non-blank
    span, the emitted line is the heading rendering of that span alone. *)
Theorem last_heading_span_overwrites_line
        (markdown_lines : list str) (pre post : list span) (h : span) :
  is_heading_span h = true ->
  forallb is_blank_span post = true ->
  line_step markdown_lines (mk_line (Some (pre ++ h :: post)))
  = markdown_lines ++ [heading_text h].
Proof.
  intros Hh Hpost. unfold line_step. simpl.
  rewrite (line_text_split pre post h Hh (blank_not_heading post Hpost)).
  unfold line_text_of. rewrite (fold_blank [] post Hpost), app_nil_r.
  destruct (heading_text_strip h [] Hh) as (c & m & _ & E & Es).
  rewrite app_nil_r in E. rewrite Es in *. rewrite E at 1. reflexivity.
Qed.

End HeadingLines.

Lemma heading_line_keeps_later_body_spans_witness :
  let h := a_span "H" 20 0 in
  let post := [a_span "b" 10 0] in
  is_heading_span h = true
  /\ forallb (fun sp => negb (is_heading_span sp)) post = true
  /\ line_step [] (a_line ([a_span "a" 10 0] ++ h :: post))
     = [] ++ [strip (heading_text h ++ line_text_of post)].
Proof.
  split; [reflexivity|]. split; [reflexivity|].
  apply (heading_line_keeps_later_body_spans []); reflexivity.
Defined.

(** C4 fails on the code: a body span after the heading span is appended
    to the heading text. *)
Lemma heading_line_later_body_span_counterexample :
  let h := a_span "H" 20 0 in
  let l := a_line [h; a_span "b" 10 0] in
  is_heading_span h = true
  /\ line_step [] l = [py "# Hb"]
  /\ line_step [] l <> [heading_text h].
Proof.
  split; [reflexivity|]. split; [reflexivity|]. discriminate.
Qed.

Lemma last_heading_span_overwrites_line_witness :
  let h := a_span " H " 15 16 in
  let post := [a_span "  " 30 0] in
  is_heading_span h = true
  /\ forallb is_blank_span post = true
  /\ line_step [] (a_line ([a_span "a" 10 0; a_span "B" 18 0] ++ h :: post))
     = [] ++ [heading_text h].
Proof.
  split; [reflexivity|]. split; [reflexivity|].
  apply (last_heading_span_overwrites_line []); reflexivity.
Defined.

(* ------------------------------------------------------------------ *)
(** ** Thresholds and emphasis *)

Section Thresholds.

Lemma Qgtb_true (a b : Q) : Qgtb a b = true <-> (b < a)%Q.
Proof.
  unfold Qgtb. rewrite negb_true_iff. split; intros H.
  - apply Qnot_le_lt. intros L. apply Qle_bool_iff in L. congruence.
  - destruct (Qle_bool a b) eqn:E; [|reflexivity].
    apply Qle_bool_iff in E. exfalso. now apply (Qlt_not_le b a).
Qed.

Lemma Qgtb_false (a b : Q) : Qgtb a b = false <-> (a <= b)%Q.
Proof.
  unfold Qgtb. rewrite negb_false_iff. apply Qle_bool_iff.
Qed.

Lemma span_step_text (acc t : str) (sz : option Q) (fl : option Z) :
  strip t <> [] ->
  span_step acc (mk_span (Some t) sz fl)
  = let text := strip t in
    let font_size := get sz 12%Q in
    let font_flags := get fl 0%Z in
    if Qgtb font_size 16 then py "# " ++ text
    else if Qgtb font_size 14 then py "## " ++ text
    else if Qgtb font_size 12 then py "### " ++ text
    else
      let text :=
        if negb (Z.land font_flags (2 ^ 4) =? 0)%Z
        then py "**" ++ text ++ py "**" else text in
      let text :=
        if negb (Z.land font_flags (2 ^ 1) =? 0)%Z
        then py "*" ++ text ++ py "*" else text in
      acc ++ text ++ py " ".
Proof.
  intros H. apply truthy_true in H. unfold span_step. simpl.
  rewrite H. reflexivity.
Qed.

Lemma land_bit (fl : Z) (n : Z) :
  (0 <= n)%Z -> Z.testbit fl n = true -> (Z.land fl (2 ^ n) =? 0)%Z = false.
Proof.
  intros Hn Hb. apply Z.eqb_neq. intros E.
  assert (T : Z.testbit (Z.land fl (2 ^ n)) n = true).
  { rewrite Z.land_spec, Hb, Z.pow2_bits_true; auto. }
  rewrite E, Z.bits_0 in T. discriminate.
Qed.

End Thresholds.

(** C5 (as amended): the comparisons are strict; a span of size exactly 16
    is a level-2 heading, a span of size 16.01 (as a decimal and as the
    binary double nearest to it) a level-1 heading. *)
Theorem heading_threshold_is_strict (acc t : str) (fl : option Z) :
  strip t <> [] ->
  (forall sz, (16 < sz)%Q ->
     span_step acc (mk_span (Some t) (Some sz) fl) = py "# " ++ strip t)
  /\ (forall sz, (14 < sz)%Q -> (sz <= 16)%Q ->
     span_step acc (mk_span (Some t) (Some sz) fl) = py "## " ++ strip t)
  /\ span_step acc (mk_span (Some t) (Some 16%Q) fl) = py "## " ++ strip t
  /\ span_step acc (mk_span (Some t) (Some 16.01%Q) fl) = py "# " ++ strip t
  /\ span_step acc
       (mk_span (Some t) (Some (4506414377137603 # 281474976710656)) fl)
     = py "# " ++ strip t.
Proof.
  intros H.
  assert (L1 : forall sz, (16 < sz)%Q ->
     span_step acc (mk_span (Some t) (Some sz) fl) = py "# " ++ strip t).
  { intros sz Hs. rewrite (span_step_text acc t (Some sz) fl H). cbv zeta.
    apply Qgtb_true in Hs. simpl get. now rewrite Hs. }
  assert (L2 : forall sz, (14 < sz)%Q -> (sz <= 16)%Q ->
     span_step acc (mk_span (Some t) (Some sz) fl) = py "## " ++ strip t).
  { intros sz Hs Hle. rewrite (span_step_text acc t (Some sz) fl H). cbv zeta.
    apply Qgtb_true in Hs. apply Qgtb_false in Hle. simpl get.
    now rewrite Hle, Hs. }
  split; [exact L1|]. split; [exact L2|]. split; [|split].
  - apply L2; [reflexivity | discriminate].
  - apply L1. reflexivity.
  - apply L1. reflexivity.
Qed.

Lemma heading_threshold_is_strict_witness :
  strip (py "x") <> []
  /\ span_step [] (a_span "x" 16 0) = py "## x"
  /\ span_step [] (a_span "x" 16.01 0) = py "# x".
Proof.
  assert (H : strip (py "x") <> []) by discriminate.
  split; [exact H|].
  destruct (heading_threshold_is_strict [] (py "x") (Some 0%Z) H)
    as (_ & _ & H16 & H1601 & _).
  split; [exact H16 | exact H1601].
Defined.

(** C5 fails on the code: a span of size exactly 16 is not body text; it
    takes the level-2 heading branch. *)
Lemma heading_threshold_counterexample :
  let s16 := a_span "x" 16 0 in
  is_heading_span s16 = true
  /\ span_step [] s16 = py "## x"
  /\ line_step [] (a_line [s16]) = [py "## x"]
  /\ line_step [] (a_line [s16]) <> [py "x"].
Proof.
  split; [reflexivity|]. split; [reflexivity|]. split; [reflexivity|].
  discriminate.
Qed.

(** C7: a body span (size at most 12) with the bold and the italic bit set
    is wrapped in [**] first and in [*] around that; for the text [x] the
    rendered line is [***x***]. *)
Theorem bold_then_italic_nesting (acc t : str) (sz : option Q) (fl : Z) :
  strip t <> [] ->
  (get sz 12 <= 12)%Q ->
  Z.testbit fl 4 = true ->
  Z.testbit fl 1 = true ->
  span_step acc (mk_span (Some t) sz (Some fl))
  = acc ++ (py "*" ++ (py "**" ++ strip t ++ py "**") ++ py "*") ++ py " "
  /\ line_step [] (mk_line (Some [mk_span (Some t) sz (Some fl)]))
     = [py "***" ++ strip t ++ py "***"].
Proof.
  intros Ht Hsz Hb Hi.
  assert (E : forall acc, span_step acc (mk_span (Some t) sz (Some fl))
    = acc ++ (py "*" ++ (py "**" ++ strip t ++ py "**") ++ py "*") ++ py " ").
  { intros a. rewrite (span_step_text a t sz (Some fl) Ht). cbv zeta.
    assert (H12 : Qgtb (get sz 12%Q) 12 = false) by now apply Qgtb_false.
    assert (H14 : Qgtb (get sz 12%Q) 14 = false).
    { apply Qgtb_false. eapply Qle_trans; [exact Hsz | discriminate]. }
    assert (H16 : Qgtb (get sz 12%Q) 16 = false).
    { apply Qgtb_false. eapply Qle_trans; [exact Hsz | discriminate]. }
    rewrite H16, H14, H12. simpl get.
    rewrite (land_bit fl 4), (land_bit fl 1) by (assumption || lia).
    reflexivity. }
  split; [apply E|].
  unfold line_step, line_text_of. simpl. rewrite E. simpl.
  rewrite strip_cons by reflexivity. simpl.
  replace (42 :: 42 :: ((strip t ++ [42; 42]) ++ [42]) ++ [32])
    with (([42; 42] ++ strip t) ++ [42; 42; 42; 32])
    by (simpl; rewrite <- ?app_assoc; reflexivity).
  rewrite rstrip_app by (vm_compute; discriminate).
  replace (rstrip [42; 42; 42; 32]) with [42; 42; 42] by reflexivity.
  simpl. rewrite <- ?app_assoc. reflexivity.
Qed.

Lemma bold_then_italic_nesting_witness :
  strip (py "x") <> []
  /\ (get (Some 12%Q) 12 <= 12)%Q
  /\ Z.testbit 18 4 = true
  /\ Z.testbit 18 1 = true
  /\ span_step [] (a_span "x" 12 18) = py "***x*** "
  /\ line_step [] (a_line [a_span "x" 12 18]) = [py "***x***"].
Proof.
  assert (Ht : strip (py "x") <> []) by discriminate.
  assert (Hs : (get (Some 12%Q) 12 <= 12)%Q) by discriminate.
  split; [exact Ht|]. split; [exact Hs|].
  split; [reflexivity|]. split; [reflexivity|].
  exact (bold_then_italic_nesting [] (py "x") (Some 12%Q) 18 Ht Hs
           eq_refl eq_refl).
Defined.

(* ------------------------------------------------------------------ *)
(** ** Page-break markers *)

Section PageMarkers.

Variable options : py_options.

Lemma pages_loop_chunks (doc : list text_dict) :
  forall (n : nat) (acc : list str),
    pages_loop doc n options acc
    = acc ++ flat_map
               (fun kp => page_chunks (fst kp)
                            (_process_pdf_blocks (snd kp) (fst kp) options))
               (combine (seq (S n) (List.length doc)) doc).
Proof.
  induction doc as [|p doc IH]; intros n acc; simpl.
  - now rewrite app_nil_r.
  - rewrite IH. unfold page_chunks at 2. rewrite Nat.add_1_r.
    destruct (truthy (strip (_process_pdf_blocks p (S n) options))).
    + destruct n as [|n]; simpl; rewrite <- ?app_assoc; reflexivity.
    + reflexivity.
Qed.

Lemma later_page_chunks (rest : list text_dict) :
  forall n : nat,
    (1 <= n)%nat ->
    flat_map
      (fun kp => page_chunks (fst kp)
                   (_process_pdf_blocks (snd kp) (fst kp) options))
      (combine (seq (S n) (List.length rest)) rest)
    = flat_map
        (fun kp =>
           let md := _process_pdf_blocks (snd kp) (fst kp) options in
           if truthy (strip md) then [page_marker (fst kp); md] else [])
        (combine (seq (S n) (List.length rest)) rest).
Proof.
  induction rest as [|p rest IH]; intros n Hn; simpl; [reflexivity|].
  rewrite (IH (S n)) by lia. f_equal.
  unfold page_chunks. destruct (truthy _); [|reflexivity].
  destruct n as [|n]; [lia | reflexivity].
Qed.

End PageMarkers.

(** C3 (as amended): the marker labelled [k] is emitted immediately before
    the text of every non-empty page [k >= 2], whatever precedes it, and
    never before page 1; so with a non-empty page 1 every marker stands
    between two non-empty pages.  For three pages of which only the second
    is empty there is exactly one marker, labelled 3, between the texts of
    pages 1 and 3. *)
Theorem page_marker_before_nonempty_pages_after_first (options : py_options) :
  (forall (first : text_dict) (rest : list text_dict),
      pages_loop (first :: rest) 0 options []
      = (if truthy (strip (_process_pdf_blocks first 1 options))
         then [_process_pdf_blocks first 1 options] else [])
        ++ flat_map
             (fun kp =>
                let md := _process_pdf_blocks (snd kp) (fst kp) options in
                if truthy (strip md) then [page_marker (fst kp); md] else [])
             (combine (seq 2 (List.length rest)) rest))
  /\ (forall p1 p2 p3 : text_dict,
         strip (_process_pdf_blocks p1 1 options) <> [] ->
         strip (_process_pdf_blocks p2 2 options) = [] ->
         strip (_process_pdf_blocks p3 3 options) <> [] ->
         pages_loop [p1; p2; p3] 0 options []
         = [_process_pdf_blocks p1 1 options; page_marker 3;
            _process_pdf_blocks p3 3 options]).
Proof.
  split.
  - intros first rest. rewrite pages_loop_chunks.
    cbn [List.length seq combine flat_map fst snd app].
    rewrite (later_page_chunks options rest 1) by lia.
    reflexivity.
  - intros p1 p2 p3 H1 H2 H3. apply truthy_true in H1, H3.
    simpl. rewrite H1, H2, H3. reflexivity.
Qed.

Lemma page_marker_before_nonempty_pages_after_first_witness :
  let p1 := a_page [[a_span "a" 10 0]] in
  let p2 := a_page [[a_span "  " 10 0]] in
  let p3 := a_page [[a_span "c" 10 0]] in
  strip (_process_pdf_blocks p1 1 empty_options) <> []
  /\ strip (_process_pdf_blocks p2 2 empty_options) = []
  /\ strip (_process_pdf_blocks p3 3 empty_options) <> []
  /\ pages_loop [p1; p2; p3] 0 empty_options []
     = [py "a"; page_marker 3; py "c"].
Proof.
  split; [discriminate|]. split; [reflexivity|]. split; [discriminate|].
  apply (proj2 (page_marker_before_nonempty_pages_after_first empty_options));
    [discriminate | reflexivity | discriminate].
Defined.

(** C3 fails on the code: when page 1 is empty the marker of page 2 is the
    first thing in the document, before the first page of the output and
    not between two non-empty pages. *)
Lemma page_marker_first_page_empty_counterexample :
  let doc := [a_page []; a_page [[a_span "c" 10 0]]] in
  pages_loop doc 0 empty_options [] = [page_marker 2; py "c"]
  /\ pdf_markdown doc empty_options
     = py "---" ++ [NL; NL] ++ py "*Page 2*" ++ [NL; NL] ++ py "c".
Proof. split; reflexivity. Qed.

(* ------------------------------------------------------------------ *)
(** ** Facts about the matcher and [re.sub] *)

Section ReFacts.

Lemma try_down_none {A} (f : nat -> option A) (lo k : nat) :
  (forall j, f j = None) -> try_down f lo k = None.
Proof.
  intros H. induction k as [|k IH]; simpl; rewrite H.
  - now destruct (Nat.ltb 0 lo).
  - now destruct (Nat.ltb (S k) lo).
Qed.

Lemma try_down_below {A} (f : nat -> option A) (lo k : nat) :
  (k < lo)%nat -> try_down f lo k = None.
Proof.
  intros H. apply Nat.ltb_lt in H. destruct k; simpl; now rewrite H.
Qed.

Lemma try_down_hit {A} (f : nat -> option A) (lo k : nat) (r : A) :
  (lo <= k)%nat -> f k = Some r -> try_down f lo k = Some r.
Proof.
  intros H E. apply Nat.ltb_ge in H. destruct k; simpl; now rewrite H, E.
Qed.

Lemma greedy_zero (cls : N -> bool) (s : str) : greedy cls (Some O) s = O.
Proof. now destruct s. Qed.

Lemma sub_aux_skip (r : regex) (t : list ritem) (s : str) :
  forall n, sub_aux r t s n = sub_aux r t (skipn n s) 0.
Proof.
  induction s as [|c s IH]; intros [|n]; try reflexivity.
  simpl. apply IH.
Qed.

(** One step of the scan. *)
Lemma sub_cons (r : regex) (t : list ritem) (c : N) (s : str) :
  sub_aux r t (c :: s) 0
  = match match_at r (c :: s) with
    | Some (S n, caps) =>
        expand t (c :: s) caps ++ sub_aux r t (skipn n s) 0
    | _ => c :: sub_aux r t s 0
    end.
Proof.
  simpl. destruct (match_at r (c :: s)) as [[[|n] caps]|]; try reflexivity.
  now rewrite sub_aux_skip.
Qed.

End ReFacts.

(* ------------------------------------------------------------------ *)
(** ** The newline before a heading *)

Section HeadingBefore.

Lemma match_heading_before (c : N) (s : str) :
  match_at re_heading_before (c :: s)
  = if (c =? NL) && startswith1 HASH s
    then let k := greedy (only HASH) (Some 6%nat) s in
         Some (S k, [(1%nat, (1%nat, S k))])
    else None.
Proof.
  unfold match_at, re_heading_before, only.
  cbn [rmatch greedy]. cbn beta. rewrite greedy_zero.
  destruct (c =? NL) eqn:Ec; cbn [andb].
  - cbn [try_down Nat.ltb Nat.leb skipn Nat.add rmatch lookup Nat.eqb].
    destruct s as [|h s]; [reflexivity|].
    cbn [startswith1 greedy]. cbn beta.
    destruct (h =? HASH) eqn:Eh.
    + set (k := greedy (fun x => x =? HASH) (Some 5%nat) s).
      rewrite (try_down_hit _ 1 (S k) (S (S k), [(1%nat, (1%nat, S (S k)))]));
        [reflexivity | lia | reflexivity].
    + reflexivity.
  - reflexivity.
Qed.

Lemma newline_before_headings_hashes (s : str) :
  forall hi,
    newline_before_headings s
    = firstn (greedy (only HASH) hi s) s
      ++ newline_before_headings (skipn (greedy (only HASH) hi s) s).
Proof.
  induction s as [|c s IH]; intros hi; [reflexivity|].
  assert (Hc : only HASH c = true -> (c =? NL) = false).
  { unfold only. intros E. apply N.eqb_eq in E. now subst c. }
  destruct hi as [[|h]|]; cbn [greedy]; try reflexivity.
  - destruct (only HASH c) eqn:E; [|reflexivity].
    cbn [firstn skipn app newline_before_headings].
    rewrite (Hc eq_refl). cbn [andb]. f_equal. apply IH.
  - destruct (only HASH c) eqn:E; [|reflexivity].
    cbn [firstn skipn app newline_before_headings].
    rewrite (Hc eq_refl). cbn [andb]. f_equal. apply IH.
Qed.

Lemma fix_heading_before_bounded (n : nat) :
  forall s, (List.length s <= n)%nat ->
            sub_aux re_heading_before to_heading_before s 0
            = newline_before_headings s.
Proof.
  induction n as [|n IH]; intros [|c s] Hlen; try reflexivity.
  - simpl in Hlen. lia.
  - rewrite sub_cons, match_heading_before.
    cbn [newline_before_headings].
    destruct ((c =? NL) && startswith1 HASH s) eqn:E.
    + cbv zeta. set (k := greedy (only HASH) (Some 6%nat) s).
      unfold to_heading_before, expand, group. cbn [lookup Nat.eqb].
      replace (S k - 1)%nat with k by lia. cbn [skipn app].
      rewrite app_nil_r, IH.
      * f_equal. f_equal. symmetry. apply newline_before_headings_hashes.
      * rewrite length_skipn. simpl in Hlen. lia.
    + f_equal. apply IH. simpl in Hlen. lia.
Qed.

End HeadingBefore.

(** C6 (as amended): the second substitution puts one more newline in front
    of every newline that a [#] follows, whether or not a blank line is
    there already; nothing else changes. *)
Theorem fix_heading_before_inserts_always (s : str) :
  fix_heading_before s = newline_before_headings s.
Proof.
  unfold fix_heading_before, sub.
  apply (fix_heading_before_bounded (List.length s)). lia.
Qed.

(** C6 fails on the code: a heading that already has a blank line in front
    of it gets a third newline, in the substitution and in the whole
    pass. *)
Lemma heading_with_blank_line_counterexample :
  let s := py "a" ++ [NL; NL] ++ py "#b" in
  fix_heading_before s = py "a" ++ [NL; NL; NL] ++ py "#b"
  /\ _clean_markdown s = py "a" ++ [NL; NL; NL] ++ py "#b"
  /\ _clean_markdown s <> s.
Proof.
  split; [reflexivity|]. split; [reflexivity|]. discriminate.
Qed.

(* ------------------------------------------------------------------ *)
(** ** Inputs the substitutions leave alone *)

Section NoMatch.

Lemma forallb_skipn {A} (f : A -> bool) (s : list A) :
  forall n, forallb f s = true -> forallb f (skipn n s) = true.
Proof.
  induction s as [|c s IH]; intros [|n] H; try exact H.
  simpl in *. apply andb_prop in H. now apply IH.
Qed.

Lemma forallb_firstn {A} (f : A -> bool) (s : list A) :
  forall n, forallb f s = true -> forallb f (firstn n s) = true.
Proof.
  induction s as [|c s IH]; intros [|n] H; try reflexivity.
  simpl in *. apply andb_prop in H. destruct H as [H1 H2].
  now rewrite H1, IH.
Qed.

Lemma rmatch_requires (bad : N -> bool) (r : regex) :
  requires bad r ->
  forall s pos opens caps,
    forallb (fun c => negb (bad c)) s = true ->
    rmatch r s pos opens caps = None.
Proof.
  induction 1 as [cls lo hi r Hcls | a r Hr IH]; intros s pos opens caps Hs.
  - cbn [rmatch]. apply try_down_below.
    assert (E : greedy cls hi s = O); [|rewrite E; lia].
    destruct s as [|c s]; [reflexivity|].
    simpl in Hs. apply andb_prop in Hs. destruct Hs as [Hc _].
    assert (Ec : cls c = false).
    { destruct (cls c) eqn:E; [|reflexivity].
      rewrite (Hcls c E) in Hc. discriminate. }
    destruct hi as [[|h]|]; simpl; now rewrite ?Ec.
  - destruct a as [cls lo hi | g | g]; cbn [rmatch].
    + apply try_down_none. intros j. apply IH. now apply forallb_skipn.
    + now apply IH.
    + destruct (lookup g opens); [now apply IH | reflexivity].
Qed.

Lemma sub_aux_id (r : regex) (t : list ritem) (s : str) :
  (forall n, match_at r (skipn n s) = None) -> sub_aux r t s 0 = s.
Proof.
  induction s as [|c s IH]; intros H; [reflexivity|].
  rewrite sub_cons. generalize (H O). cbn [skipn]. intros E. rewrite E.
  f_equal. apply IH.
  intros n. exact (H (S n)).
Qed.

Lemma sub_requires (bad : N -> bool) (r : regex) (t : list ritem) (s : str) :
  requires bad r ->
  forallb (fun c => negb (bad c)) s = true ->
  sub r t s = s.
Proof.
  intros Hr Hs. apply sub_aux_id. intros n.
  apply (rmatch_requires bad r Hr). now apply forallb_skipn.
Qed.

Lemma heading_before_requires : requires is_marker re_heading_before.
Proof.
  do 2 apply requires_later. apply requires_here.
  intros c E. unfold only in E. apply N.eqb_eq in E. now subst c.
Qed.

Lemma heading_after_requires : requires is_marker re_heading_after.
Proof.
  apply requires_later. apply requires_here.
  intros c E. unfold only in E. apply N.eqb_eq in E. now subst c.
Qed.

Lemma list_item_requires : requires is_marker re_list_item.
Proof.
  do 3 apply requires_later. apply requires_here.
  intros c E. unfold is_marker.
  destruct (c =? DASH), (c =? STAR), (c =? PLUS); simpl in *;
    try discriminate; now rewrite ?orb_true_r.
Qed.

(** A template of literals only adds those literals. *)
Lemma sub_aux_forallb (f : N -> bool) (r : regex) (lits : str) (s : str) :
  forallb f lits = true ->
  forallb f s = true ->
  forall n, forallb f (sub_aux r (map Lit lits) s n) = true.
Proof.
  intros Hl. induction s as [|c s IH]; intros Hs n; [reflexivity|].
  simpl in Hs. apply andb_prop in Hs. destruct Hs as [Hc Hs].
  assert (E : forall caps, expand (map Lit lits) (c :: s) caps = lits).
  { intros caps. clear. induction lits as [|l lits IHl]; simpl; congruence. }
  destruct n as [|n]; cbn [sub_aux]; [|now apply IH].
  destruct (match_at r (c :: s)) as [[[|k] caps]|].
  - simpl. now rewrite Hc, IH.
  - rewrite E, forallb_app, Hl. now apply IH.
  - simpl. now rewrite Hc, IH.
Qed.

End NoMatch.

(* ------------------------------------------------------------------ *)
(** ** Runs of newlines *)

Section NewlineRuns.

Lemma nlrun_cons (c : N) (s : str) :
  nlrun (c :: s) = if c =? NL then S (nlrun s) else O.
Proof. reflexivity. Qed.

Lemma nlrun_skip_run (s : str) : nlrun (skipn (nlrun s) s) = O.
Proof.
  induction s as [|c s IH]; [reflexivity|].
  rewrite nlrun_cons. destruct (c =? NL) eqn:E.
  - exact IH.
  - cbn [skipn]. now rewrite nlrun_cons, E.
Qed.

Lemma match_newlines (s : str) :
  match_at re_newlines s
  = if Nat.leb 3 (nlrun s) then Some (nlrun s, []) else None.
Proof.
  unfold match_at, re_newlines. cbn [rmatch]. fold (nlrun s).
  destruct (Nat.leb 3 (nlrun s)) eqn:E.
  - apply Nat.leb_le in E. now apply try_down_hit.
  - apply Nat.leb_gt in E. now apply try_down_below.
Qed.

Lemma no3_skipn (s : str) : forall n, no3 s = true -> no3 (skipn n s) = true.
Proof.
  induction s as [|c s IH]; intros [|n] H; try exact H.
  cbn [skipn]. apply IH. cbn [no3] in H. now apply andb_prop in H.
Qed.

Lemma no3_nlrun (s : str) : no3 s = true -> (nlrun s < 3)%nat.
Proof.
  destruct s as [|c s]; intros H.
  - cbv. lia.
  - cbn [no3] in H. apply andb_prop in H. now apply Nat.ltb_lt.
Qed.

Lemma nlrun_firstn (s : str) : forall n, (nlrun (firstn n s) <= nlrun s)%nat.
Proof.
  induction s as [|c s IH]; intros [|n]; cbn [firstn];
    try (cbv; lia); try (cbn; lia).
  rewrite !nlrun_cons. destruct (c =? NL); [|lia].
  specialize (IH n). lia.
Qed.

Lemma no3_firstn (s : str) : forall n, no3 s = true -> no3 (firstn n s) = true.
Proof.
  induction s as [|c s IH]; intros [|n] H; try reflexivity.
  cbn [no3] in H. apply andb_prop in H. destruct H as [H1 H2].
  change (firstn (S n) (c :: s)) with (c :: firstn n s).
  cbn [no3]. rewrite (IH n H2), andb_true_r.
  apply Nat.ltb_lt. apply Nat.ltb_lt in H1.
  pose proof (nlrun_firstn (c :: s) (S n)) as L.
  change (firstn (S n) (c :: s)) with (c :: firstn n s) in L. lia.
Qed.

(** A string without a run of three newlines is not changed. *)
Lemma remove_excessive_newlines_id (s : str) :
  no3 s = true -> remove_excessive_newlines s = s.
Proof.
  intros H. apply sub_aux_id. intros n. rewrite match_newlines.
  pose proof (no3_nlrun _ (no3_skipn s n H)) as L.
  apply Nat.leb_gt in L. now rewrite L.
Qed.

Lemma collapse_bounded (n : nat) :
  forall s, (List.length s <= n)%nat ->
            no3 (sub_aux re_newlines to_two_newlines s 0) = true
            /\ (nlrun (sub_aux re_newlines to_two_newlines s 0) <= nlrun s)%nat.
Proof.
  induction n as [|n IH]; intros [|c s] Hlen;
    try (split; [reflexivity | cbv; lia]).
  - simpl in Hlen. lia.
  - rewrite sub_cons, match_newlines. simpl in Hlen.
    destruct (Nat.leb 3 (nlrun (c :: s))) eqn:E.
    + apply Nat.leb_le in E. rewrite nlrun_cons in *.
      destruct (c =? NL) eqn:Ec; [|lia].
      cbn [to_two_newlines expand app].
      destruct (IH (skipn (nlrun s) s)) as [I1 I2].
      { rewrite length_skipn. lia. }
      rewrite nlrun_skip_run in I2.
      set (out := sub_aux re_newlines to_two_newlines (skipn (nlrun s) s) 0)
        in *.
      assert (Z0 : nlrun out = O) by lia.
      split.
      * cbn [no3]. rewrite !nlrun_cons, Z0, I1. reflexivity.
      * rewrite !nlrun_cons, Z0. change (NL =? NL) with true. cbv iota. lia.
    + apply Nat.leb_gt in E.
      destruct (IH s) as [I1 I2]; [lia|].
      set (out := sub_aux re_newlines to_two_newlines s 0) in *.
      assert (L : (nlrun (c :: out) <= nlrun (c :: s))%nat).
      { rewrite !nlrun_cons. destruct (c =? NL); lia. }
      split; [|exact L].
      cbn [no3]. rewrite I1, andb_true_r. apply Nat.ltb_lt. lia.
Qed.

Lemma remove_excessive_newlines_no3 (s : str) :
  no3 (remove_excessive_newlines s) = true.
Proof.
  apply (collapse_bounded (List.length s)). lia.
Qed.

Lemma remove_excessive_newlines_marker_free (s : str) :
  marker_free s = true -> marker_free (remove_excessive_newlines s) = true.
Proof.
  intros H. unfold remove_excessive_newlines, sub.
  apply (sub_aux_forallb _ re_newlines [NL; NL] s); [reflexivity | exact H].
Qed.

End NewlineRuns.

(* ------------------------------------------------------------------ *)
(** ** Lines and tables *)

Section Lines.

Lemma split_nl_cons (s : str) : exists l ls, split_nl s = l :: ls.
Proof.
  induction s as [|c s (l & ls & E)]; simpl.
  - now exists [], [].
  - destruct (c =? NL); [now exists [], (split_nl s)|].
    rewrite E. now exists (c :: l), ls.
Qed.

Lemma join_split_nl (s : str) : join [NL] (split_nl s) = s.
Proof.
  induction s as [|c s IH]; [reflexivity|].
  cbn [split_nl]. destruct (split_nl_cons s) as (l & ls & E).
  destruct (c =? NL) eqn:Ec.
  - apply N.eqb_eq in Ec. subst c. rewrite E in *. simpl in *. now rewrite IH.
  - rewrite E in *. destruct ls; simpl in *; now rewrite <- IH.
Qed.

Lemma split_nl_forallb (f : N -> bool) (s : str) :
  forallb f s = true -> forallb (forallb f) (split_nl s) = true.
Proof.
  induction s as [|c s IH]; intros H; [reflexivity|].
  simpl in H. apply andb_prop in H. destruct H as [Hc Hs].
  specialize (IH Hs). cbn [split_nl].
  destruct (c =? NL); [exact IH|].
  destruct (split_nl s) as [|l ls]; simpl in *.
  - now rewrite Hc.
  - now rewrite Hc.
Qed.

Lemma marker_free_not_table (l : str) :
  marker_free l = true -> is_table_line l = false.
Proof.
  intros H. unfold is_table_line.
  assert (E : contains PIPE l = false); [|now rewrite E].
  unfold contains. induction l as [|c l IH]; [reflexivity|].
  cbn [marker_free forallb] in H. apply andb_prop in H.
  destruct H as [Hc Hl].
  cbn [existsb]. rewrite (IH Hl), orb_false_r.
  unfold is_marker in Hc. apply negb_true_iff in Hc.
  apply orb_false_iff in Hc. destruct Hc as [_ Hc].
  rewrite N.eqb_sym. exact Hc.
Qed.

Lemma table_lines_id (lines : list str) :
  forallb marker_free lines = true -> table_lines lines false = lines.
Proof.
  induction lines as [|l lines IH]; intros H; [reflexivity|].
  simpl in H. apply andb_prop in H. destruct H as [Hl Hr].
  cbn [table_lines]. rewrite (marker_free_not_table l Hl). simpl.
  now rewrite IH.
Qed.

End Lines.

(* ------------------------------------------------------------------ *)
(** ** [strip] cuts a piece out of the string *)

Section StripPieces.

Lemma lstrip_skipn (s : str) : exists n, lstrip s = skipn n s.
Proof.
  induction s as [|c s [n E]]; [now exists O|].
  simpl. destruct (isspace c); [now exists (S n) | now exists O].
Qed.

Lemma rstrip_firstn (s : str) : exists n, rstrip s = firstn n s.
Proof.
  unfold rstrip. destruct (lstrip_skipn (rev s)) as [n E].
  rewrite E, skipn_rev, rev_involutive. eauto.
Qed.

Lemma strip_piece (s : str) : exists n m, strip s = firstn n (skipn m s).
Proof.
  unfold strip. destruct (lstrip_skipn s) as [m Em].
  destruct (rstrip_firstn (lstrip s)) as [n En].
  exists n, m. now rewrite En, Em.
Qed.

Lemma lstrip_head (s : str) :
  lstrip s = [] \/ exists c t, lstrip s = c :: t /\ isspace c = false.
Proof.
  induction s as [|c s IH]; [now left|].
  simpl. destruct (isspace c) eqn:E; [exact IH|].
  right. now exists c, s.
Qed.

Lemma strip_idem (s : str) : strip (strip s) = strip s.
Proof.
  unfold strip at 2 3.
  destruct (lstrip_head s) as [E | (c & t & E & Hc)]; rewrite E.
  - reflexivity.
  - rewrite (rstrip_cons _ _ Hc), (strip_cons _ _ Hc), rstrip_idem.
    reflexivity.
Qed.

End StripPieces.

(* ------------------------------------------------------------------ *)
(** ** The pass on text without marker characters, and the pass run twice *)

Section Idempotence.

(** Without marker characters only the newline rule and the final [strip]
    do anything. *)
Lemma clean_marker_free (s : str) :
  marker_free s = true ->
  _clean_markdown s = strip (remove_excessive_newlines s).
Proof.
  intros H. unfold _clean_markdown.
  pose proof (remove_excessive_newlines_marker_free s H) as Hu.
  set (u := remove_excessive_newlines s) in *.
  unfold fix_heading_before, fix_heading_after, fix_list_formatting.
  rewrite (sub_requires is_marker _ _ u heading_before_requires Hu).
  rewrite (sub_requires is_marker _ _ u heading_after_requires Hu).
  rewrite (sub_requires is_marker _ _ u list_item_requires Hu).
  rewrite table_lines_id by now apply split_nl_forallb.
  now rewrite join_split_nl.
Qed.

End Idempotence.

(** C1 fails on the code: a second pass adds newlines before a heading, a
    list item and a table, and after a table. *)
Lemma clean_markdown_not_idempotent_counterexample :
  let h := py "a" ++ [NL] ++ py "#b" in
  let t := py "a" ++ [NL] ++ py "|x|" ++ [NL] ++ py "b" in
  _clean_markdown h = py "a" ++ [NL; NL] ++ py "#b"
  /\ _clean_markdown (_clean_markdown h) = py "a" ++ [NL; NL; NL] ++ py "#b"
  /\ _clean_markdown (_clean_markdown h) <> _clean_markdown h
  /\ _clean_markdown t = py "a" ++ [NL; NL] ++ py "|x|" ++ [NL; NL] ++ py "b"
  /\ _clean_markdown (_clean_markdown t)
     = py "a" ++ [NL; NL; NL] ++ py "|x|" ++ [NL; NL; NL] ++ py "b"
  /\ _clean_markdown (_clean_markdown t) <> _clean_markdown t.
Proof.
  split; [reflexivity|]. split; [reflexivity|]. split; [discriminate|].
  split; [reflexivity|]. split; [reflexivity|]. discriminate.
Qed.

(* ------------------------------------------------------------------ *)
(** ** The orchestrator *)

Section Orchestrator.

Context {P : Platform}.

Lemma pages_loop_blank (options : py_options) (doc : list text_dict) :
  (forall p k, In p doc -> strip (_process_pdf_blocks p k options) = []) ->
  forall n acc, pages_loop doc n options acc = acc.
Proof.
  induction doc as [|p doc IH]; intros H n acc; [reflexivity|].
  cbn [pages_loop]. rewrite (H p (n + 1)%nat) by now left.
  apply IH. intros q k Hq. apply H. now right.
Qed.

Lemma pdf_to_markdown_ok (pdf_path output_path : str) (options : py_options)
      (w w' : world) (r : result) :
  pdf_to_markdown pdf_path output_path options w = (inr r, w') ->
  success r = true /\ input_path r = pdf_path.
Proof.
  unfold pdf_to_markdown, bind, ret, lift.
  destruct (datetime_now w) as [[e|t0] w1]; [discriminate|].
  destruct (fitz_open pdf_path w1) as [[e|doc] w2]; [discriminate|].
  destruct (write_text _ _ w2) as [[e|u] w3]; [discriminate|].
  destruct (fitz_len_closed doc) as [e|pages]; [discriminate|].
  destruct (datetime_now w3) as [[e|t1] w4]; [discriminate|].
  destruct (os_path_getsize _ w4) as [[e|size] w5]; [discriminate|].
  intros E. injection E as <- _. now split.
Qed.

Lemma office_to_markdown_ok (office_path output_path : str)
      (options : py_options) (w w' : world) (r : result) :
  office_to_markdown office_path output_path options w = (inr r, w') ->
  success r = true /\ input_path r = office_path.
Proof.
  unfold office_to_markdown, bind, ret, catch, raise.
  destruct (datetime_now w) as [[e|t0] w1]; [discriminate|].
  destruct (subprocess_run _ w1) as [[e|u] w2]; [now destruct e|].
  destruct (read_text _ w2) as [[e|text] w3]; [now destruct e|].
  destruct (write_text _ _ w3) as [[e|u'] w4]; [now destruct e|].
  destruct (datetime_now w4) as [[e|t1] w5]; [now destruct e|].
  destruct (os_path_getsize _ w5) as [[e|size] w6]; [now destruct e|].
  intros E. injection E as <- _. now split.
Qed.

Lemma convert_to_markdown_ok (input : str) (out : option str)
      (options : option py_options) (w w' : world) (r : result) :
  convert_to_markdown input out options w = (inr r, w') ->
  success r = true /\ input_path r = input.
Proof.
  unfold convert_to_markdown, bind, query, raise.
  destruct (os_path_exists input w); cbn [negb]; [|discriminate].
  destruct (dict_get _ supported_formats) as [h|]; [|discriminate].
  destruct (os_makedirs _ w) as [[e|u] w1]; [discriminate|].
  destruct h; cbn [run_handler].
  - apply pdf_to_markdown_ok.
  - apply office_to_markdown_ok.
Qed.

End Orchestrator.

(* ------------------------------------------------------------------ *)
(** ** Results and errors of the conversions *)

Section Results.

Context {P : Platform}.

Lemma split_ws_aux_length (s : str) :
  forall cur,
    (List.length (split_ws_aux s cur)
     <= List.length s + match cur with [] => 0 | _ :: _ => 1 end)%nat.
Proof.
  induction s as [|c s IH]; intros cur.
  - destruct cur; simpl; lia.
  - cbn [split_ws_aux]. destruct (isspace c).
    + destruct cur; [specialize (IH []) | specialize (IH [])];
        simpl in *; lia.
    + specialize (IH (c :: cur)). simpl in *. destruct cur; lia.
Qed.

Lemma split_ws_length (s : str) :
  (List.length (split_ws s) <= List.length s)%nat.
Proof.
  unfold split_ws. pose proof (split_ws_aux_length s []) as H.
  simpl in H. lia.
Qed.

Lemma pdf_to_markdown_record (pdf_path out : str) (options : py_options)
      (w w' : world) (r : result) :
  pdf_to_markdown pdf_path out options w = (inr r, w') ->
  good_record pdf_path out r.
Proof.
  unfold pdf_to_markdown, bind, ret, lift.
  destruct (datetime_now w) as [[e|t0] w1]; [discriminate|].
  destruct (fitz_open pdf_path w1) as [[e|doc] w2]; [discriminate|].
  destruct (write_text _ _ w2) as [[e|u] w3]; [discriminate|].
  destruct (fitz_len_closed doc) as [e|pages]; [discriminate|].
  destruct (datetime_now w3) as [[e|t1] w4]; [discriminate|].
  destruct (os_path_getsize _ w4) as [[e|size] w5]; [discriminate|].
  intros E. injection E as <- _. repeat split.
  eexists. eexists. repeat split. apply split_ws_length.
Qed.

Lemma office_to_markdown_record (office_path out : str)
      (options : py_options) (w w' : world) (r : result) :
  office_to_markdown office_path out options w = (inr r, w') ->
  good_record office_path out r.
Proof.
  unfold office_to_markdown, bind, ret, catch, raise.
  destruct (datetime_now w) as [[e|t0] w1]; [discriminate|].
  destruct (subprocess_run _ w1) as [[e|u] w2]; [now destruct e|].
  destruct (read_text _ w2) as [[e|text] w3]; [now destruct e|].
  destruct (write_text _ _ w3) as [[e|u'] w4]; [now destruct e|].
  destruct (datetime_now w4) as [[e|t1] w5]; [now destruct e|].
  destruct (os_path_getsize _ w5) as [[e|size] w6]; [now destruct e|].
  intros E. injection E as <- _. repeat split.
  eexists. eexists. repeat split. apply split_ws_length.
Qed.

Lemma convert_to_markdown_record (input : str) (out : option str)
      (options : option py_options) (w w' : world) (r : result) :
  convert_to_markdown input out options w = (inr r, w') ->
  good_record input (get out (path_with_suffix_md input)) r.
Proof.
  unfold convert_to_markdown, bind, query, raise.
  destruct (os_path_exists input w); cbn [negb]; [|discriminate].
  destruct (dict_get _ supported_formats) as [h|]; [|discriminate].
  destruct (os_makedirs _ w) as [[e|u] w1]; [discriminate|].
  replace (match out with Some o => o | None => path_with_suffix_md input end)
    with (get out (path_with_suffix_md input)) by now destruct out.
  destruct h; cbn [run_handler].
  - apply pdf_to_markdown_record.
  - apply office_to_markdown_record.
Qed.

End Results.

(** C8 (as amended): converting a path whose extension is not supported
    fails and leaves the file system as it was; the error is
    [ValueError("Unsupported file format: ...")] when the path exists, and
    [FileNotFoundError] when it does not, since existence is tested
    first. *)
Theorem unsupported_extension_fails_without_output
        {P : Platform} (input : str) (out : option str)
        (options : option py_options) (w : world) :
  dict_get (str_lower (path_suffix input)) supported_formats = None ->
  convert_to_markdown input out options w
  = (inl (if os_path_exists input w
          then ValueError (py "Unsupported file format: "
                              ++ str_lower (path_suffix input))
          else FileNotFoundError (py "Input file not found: " ++ input)),
     w).
Proof.
  intros H. unfold convert_to_markdown, bind, query, raise.
  destruct (os_path_exists input w); cbn [negb]; [|reflexivity].
  now rewrite H.
Qed.

Lemma unsupported_extension_fails_without_output_witness :
  dict_get (@str_lower Mem.platform (@path_suffix Mem.platform (py "in/b.txt")))
           supported_formats = None
  /\ convert_to_markdown (P := Mem.platform) (py "in/b.txt") None None
                         Mem.sample
     = (inl (ValueError (py "Unsupported file format: .txt")), Mem.sample).
Proof.
  split; [reflexivity|].
  exact (unsupported_extension_fails_without_output
           (P := Mem.platform) (py "in/b.txt") None None Mem.sample eq_refl).
Defined.

(** C8 fails on the code: for a [.txt] path that does not exist the error
    is [FileNotFoundError], not the unsupported-format error. *)
Lemma missing_unsupported_path_counterexample :
  @str_lower Mem.platform (@path_suffix Mem.platform (py "notes.txt"))
  = py ".txt"
  /\ dict_get (py ".txt") supported_formats = None
  /\ convert_to_markdown (P := Mem.platform) (py "notes.txt") None None []
     = (inl (FileNotFoundError (py "Input file not found: notes.txt")), [])
  /\ fst (convert_to_markdown (P := Mem.platform) (py "notes.txt") None None [])
     <> inl (ValueError (py "Unsupported file format: .txt")).
Proof.
  split; [reflexivity|]. split; [reflexivity|]. split; [reflexivity|].
  discriminate.
Qed.

(** C10 (the code departs from it): for a PDF all of whose pages give no
    non-blank text, the text to write is the empty string and the output
    file is written with it; the next statement reads [len(doc)] of the
    document that [doc.close()] has closed, so when the closed document
    raises (PyMuPDF: [ValueError('document closed')]) the conversion ends
    with that exception, in the state that has the written file, and
    returns no result. *)
Theorem blank_pdf_written_then_len_raises
        {P : Platform} (pdf_path md_path : str) (options : py_options)
        (doc : list text_dict) (t0 : Q) (e : exn) (w w1 w2 w3 : world) :
  datetime_now w = (inr t0, w1) ->
  fitz_open pdf_path w1 = (inr doc, w2) ->
  (forall p k, In p doc -> strip (_process_pdf_blocks p k options) = []) ->
  write_text md_path [] w2 = (inr tt, w3) ->
  fitz_len_closed doc = inl e ->
  pdf_markdown doc options = []
  /\ pdf_to_markdown pdf_path md_path options w = (inl e, w3).
Proof.
  intros Hnow Hopen Hblank Hwrite Hlen.
  assert (E : _clean_markdown (join [] (pages_loop doc 0 options [])) = []).
  { now rewrite (pages_loop_blank options doc Hblank). }
  split; [exact E|].
  unfold pdf_to_markdown, bind, ret, lift.
  now rewrite Hnow, Hopen, E, Hwrite, Hlen.
Qed.

Lemma blank_pdf_written_then_len_raises_witness :
  let doc := [a_page []; a_page [[a_span "  " 30 0]]] in
  let w := [(py "e.pdf", Mem.PdfFile doc)] in
  let w' := [(py "e.pdf", Mem.PdfFile doc); (py "e.md", Mem.TextFile [])] in
  (forall p k, In p doc ->
               strip (_process_pdf_blocks p k empty_options) = [])
  /\ @write_text Mem.platform (py "e.md") [] w = (inr tt, w')
  /\ @fitz_len_closed Mem.platform doc
     = inl (ValueError (py "document closed"))
  /\ pdf_to_markdown (P := Mem.platform) (py "e.pdf") (py "e.md")
                     empty_options w
     = (inl (ValueError (py "document closed")), w').
Proof.
  intros doc w w'.
  assert (Hblank : forall p k, In p doc ->
                     strip (_process_pdf_blocks p k empty_options) = []).
  { intros p k [<-|[<-|[]]]; reflexivity. }
  split; [exact Hblank|]. split; [reflexivity|]. split; [reflexivity|].
  exact (proj2 (blank_pdf_written_then_len_raises
                  (P := Mem.platform) (py "e.pdf") (py "e.md") empty_options
                  doc 0%Q (ValueError (py "document closed")) w w w w'
                  eq_refl eq_refl Hblank eq_refl eq_refl)).
Defined.

(** C2 (as amended): for a directory with one PDF and one file with an
    unsupported extension, batch conversion returns exactly one record, the
    one of the PDF: the result of its conversion when that returns, the
    failure record with the message when it raises.  The extension filter
    passes over the other file, which gets no record. *)
Theorem batch_skips_unsupported_file
        {P : Platform} (input_dir output_dir pdf other : str)
        (options : option py_options) (files : list str)
        (w w1 w2 : world) :
  path_mkdir output_dir w = (inr tt, w1) ->
  path_rglob input_dir w1 = (inr files, w2) ->
  files = [pdf; other] \/ files = [other; pdf] ->
  path_is_file pdf w2 = true ->
  str_lower (path_suffix pdf) = py ".pdf" ->
  dict_get (str_lower (path_suffix other)) supported_formats = None ->
  let conversion :=
    convert_to_markdown
      pdf (Some (batch_output_file input_dir output_dir pdf)) options w2 in
  batch_convert input_dir output_dir options w
  = (inr [record_of pdf (fst conversion)], snd conversion)
  /\ input_path (record_of pdf (fst conversion)) = pdf
  /\ batch_record (record_of pdf (fst conversion)).
Proof.
  intros Hmk Hglob Hfiles Hfile Hpdf Hother conversion.
  assert (Hskip : dict_mem (str_lower (path_suffix other)) supported_formats
                  = false).
  { unfold dict_mem. now rewrite Hother. }
  split; [|split].
  - unfold batch_convert, bind. rewrite Hmk, Hglob.
    destruct Hfiles as [-> | ->]; cbn [batch_loop];
      unfold bind, query, catch, ret; rewrite Hskip, Hpdf;
      change (dict_mem (py ".pdf") supported_formats) with true;
      rewrite ?andb_false_r, Hfile; cbn [andb];
      fold conversion; destruct conversion as [[e|r] w3];
      cbn [record_of fst snd app]; rewrite ?andb_false_r; reflexivity.
  - destruct conversion as [[e|r] w3] eqn:Conv; cbn [record_of fst];
      [reflexivity|].
    unfold conversion in Conv.
    now apply (convert_to_markdown_ok _ _ _ _ _ _ Conv).
  - destruct conversion as [[e|r] w3] eqn:Conv; cbn [record_of fst].
    + right. repeat split. discriminate.
    + left. unfold conversion in Conv.
      destruct (convert_to_markdown_record _ _ _ _ _ _ Conv)
        as (Hs & _ & _ & He & _). now split.
Qed.

Lemma batch_skips_unsupported_file_witness :
  @path_rglob Mem.platform (py "in") (Mem.sample ++ [(py "out", Mem.Dir)])
  = (inr [py "in/a.pdf"; py "in/b.txt"], Mem.sample ++ [(py "out", Mem.Dir)])
  /\ batch_convert (P := Mem.platform) (py "in") (py "out") None Mem.sample
     = (inr [Mem.sample_result], Mem.sample_after)
  /\ input_path Mem.sample_result = py "in/a.pdf"
  /\ batch_record Mem.sample_result.
Proof.
  split; [reflexivity|].
  exact (batch_skips_unsupported_file
           (P := Mem.platform) (py "in") (py "out") (py "in/a.pdf")
           (py "in/b.txt") None [py "in/a.pdf"; py "in/b.txt"]
           Mem.sample (Mem.sample ++ [(py "out", Mem.Dir)])
           (Mem.sample ++ [(py "out", Mem.Dir)])
           eq_refl eq_refl (or_introl eq_refl) eq_refl eq_refl eq_refl).
Defined.

(** C2 fails on the code: the batch over a directory with one PDF and one
    [.txt] file returns one record, not two; none is made for the [.txt]
    file. *)
Lemma batch_one_record_counterexample :
  @path_rglob Mem.platform (py "in") Mem.sample
  = (inr [py "in/a.pdf"; py "in/b.txt"], Mem.sample)
  /\ batch_convert (P := Mem.platform) (py "in") (py "out") None Mem.sample
     = (inr [Mem.sample_result], Mem.sample_after)
  /\ List.length [Mem.sample_result] <> 2%nat
  /\ input_path Mem.sample_result <> py "in/b.txt".
Proof.
  split; [reflexivity|]. split; [reflexivity|]. split; discriminate.
Qed.

(* ------------------------------------------------------------------ *)
(** ** Further properties of the normalization pass *)

Section CleanFacts.

Lemma strip_head (s : str) (c : N) (t : str) :
  strip s = c :: t -> isspace c = false.
Proof.
  unfold strip.
  destruct (lstrip_head s) as [E | (a & u & E & Ha)]; rewrite E.
  - discriminate.
  - rewrite (rstrip_cons _ _ Ha). intros H. injection H as <- _. exact Ha.
Qed.

Lemma rstrip_last (s t : str) (c : N) :
  rstrip s = t ++ [c] -> isspace c = false.
Proof.
  unfold rstrip. intros H. apply (f_equal (@rev N)) in H.
  rewrite rev_involutive, rev_app_distr in H. simpl in H.
  destruct (lstrip_head (rev s)) as [E | (a & u & E & Ha)].
  - rewrite E in H. discriminate.
  - rewrite E in H. injection H as -> _. exact Ha.
Qed.

Lemma strip_blank (s : str) : forallb isspace s = true -> strip s = [].
Proof.
  intros H. unfold strip.
  assert (E : lstrip s = []); [|now rewrite E].
  induction s as [|c s IH]; [reflexivity|].
  simpl in *. apply andb_prop in H. destruct H as [Hc Hs].
  rewrite Hc. now apply IH.
Qed.

Lemma space_not_marker (c : N) : isspace c = true -> is_marker c = false.
Proof.
  unfold is_marker. intros H.
  destruct (c =? HASH) eqn:E1; [apply N.eqb_eq in E1; now subst c|].
  destruct (c =? DASH) eqn:E2; [apply N.eqb_eq in E2; now subst c|].
  destruct (c =? STAR) eqn:E3; [apply N.eqb_eq in E3; now subst c|].
  destruct (c =? PLUS) eqn:E4; [apply N.eqb_eq in E4; now subst c|].
  destruct (c =? PIPE) eqn:E5; [apply N.eqb_eq in E5; now subst c|].
  reflexivity.
Qed.

Lemma nlrun_succ (s : str) (n : nat) :
  nlrun s = S n -> exists t, s = NL :: t /\ nlrun t = n.
Proof.
  destruct s as [|c t]; [discriminate|].
  rewrite nlrun_cons. destruct (c =? NL) eqn:E; [|discriminate].
  apply N.eqb_eq in E. subst c. intros H. injection H as H. now exists t.
Qed.

Lemma nlrun_three (s : str) :
  (3 <= nlrun s)%nat -> exists b, s = NL :: NL :: NL :: b.
Proof.
  intros H.
  destruct (nlrun s) as [|[|[|n]]] eqn:E; try lia.
  destruct (nlrun_succ _ _ E) as (t1 & -> & E1).
  destruct (nlrun_succ _ _ E1) as (t2 & -> & E2).
  destruct (nlrun_succ _ _ E2) as (t3 & -> & _).
  now exists t3.
Qed.

Lemma no3_infix (s : str) :
  no3 s = true <-> (forall a b, s <> a ++ NL :: NL :: NL :: b).
Proof.
  split.
  - intros H a b E. subst s.
    pose proof (no3_skipn _ (List.length a) H) as H'.
    rewrite skipn_app, skipn_all, Nat.sub_diag in H'. simpl in H'.
    discriminate.
  - induction s as [|c s IH]; intros H; [reflexivity|].
    cbn [no3]. apply andb_true_intro. split.
    + apply Nat.ltb_lt. destruct (Nat.lt_ge_cases (nlrun (c :: s)) 3) as [L|L];
        [exact L|].
      destruct (nlrun_three _ L) as [b E]. exfalso. exact (H [] b E).
    + apply IH. intros a b E. apply (H (c :: a) b). simpl. now rewrite E.
Qed.

End CleanFacts.

(** X1: the normalized text has no white space at either end: trimming it
    again changes nothing, and its first and last characters, when there
    are any, are not white space. *)
Theorem clean_markdown_is_trimmed (s : str) :
  strip (_clean_markdown s) = _clean_markdown s
  /\ (forall c t, _clean_markdown s = c :: t -> isspace c = false)
  /\ (forall t c, _clean_markdown s = t ++ [c] -> isspace c = false).
Proof.
  unfold _clean_markdown. cbv zeta.
  set (j := join [NL] _). split; [apply strip_idem|]. split.
  - intros c t. apply strip_head.
  - intros t c. unfold strip. apply rstrip_last.
Qed.

(** X2: the first substitution leaves no run of three newlines, and the
    strings it leaves unchanged are exactly those without such a run. *)
Theorem remove_excessive_newlines_caps_runs (s : str) :
  (forall a b, remove_excessive_newlines s <> a ++ NL :: NL :: NL :: b)
  /\ (remove_excessive_newlines s = s
      <-> forall a b, s <> a ++ NL :: NL :: NL :: b).
Proof.
  split.
  - apply no3_infix. apply remove_excessive_newlines_no3.
  - split.
    + intros E. apply no3_infix. rewrite <- E.
      apply remove_excessive_newlines_no3.
    + intros H. apply remove_excessive_newlines_id. now apply no3_infix.
Qed.

(** X3: on text without any of the characters [#], [-], [*], [+] and [|]
    the whole pass does what its first and last steps do: runs of three or
    more newlines become two, and the result is trimmed. *)
Theorem clean_markdown_plain_text (s : str) :
  marker_free s = true ->
  _clean_markdown s = strip (remove_excessive_newlines s).
Proof. apply clean_marker_free. Qed.

Lemma clean_markdown_plain_text_witness :
  let s := py " a" ++ [NL; NL; NL] ++ py "b. " in
  marker_free s = true
  /\ _clean_markdown s = strip (remove_excessive_newlines s)
  /\ _clean_markdown s = py "a" ++ [NL; NL] ++ py "b.".
Proof.
  split; [reflexivity|]. split; [|reflexivity].
  apply clean_markdown_plain_text. reflexivity.
Defined.

(** X4: input made of white space only (empty input too) is normalized to
    the empty string. *)
Theorem clean_markdown_blank_input (s : str) :
  forallb isspace s = true -> _clean_markdown s = [].
Proof.
  intros H.
  assert (Hm : marker_free s = true).
  { unfold marker_free. rewrite forallb_forall in *. intros c Hc.
    now rewrite (space_not_marker c (H c Hc)). }
  rewrite (clean_marker_free s Hm). apply strip_blank.
  unfold remove_excessive_newlines, sub.
  apply (sub_aux_forallb isspace re_newlines [NL; NL] s); [reflexivity|exact H].
Qed.

Lemma clean_markdown_blank_input_witness :
  let s := [NL; SPACE; 9; NL; NL; NL; 160; NL] in
  forallb isspace s = true /\ _clean_markdown s = [].
Proof.
  split; [reflexivity|].
  apply clean_markdown_blank_input. reflexivity.
Defined.

(* ------------------------------------------------------------------ *)
(** ** The table loop *)

Lemma table_lines_isolated (lines : list str) :
  forall prev p,
    is_table_line p = prev ->
    isolated p (table_lines lines prev) = true.
Proof.
  induction lines as [|l lines IH]; intros prev p Hp; [reflexivity|].
  cbn [table_lines]. pose proof (IH (is_table_line l) l eq_refl) as R.
  destruct (is_table_line l) eqn:El, prev; cbn [andb negb app isolated];
    rewrite R; unfold boundary_ok; rewrite ?Hp, ?El; reflexivity.
Qed.

(** X5: in the lines the table loop produces, a table line and a line that
    is not one are never neighbours unless the latter is empty; and when the
    first line is a table line, the loop puts an empty line in front of
    it. *)
Theorem table_lines_isolates_tables (lines : list str) :
  tables_isolated (table_lines lines false) = true
  /\ (forall l rest,
        lines = l :: rest -> is_table_line l = true ->
        table_lines lines false = [] :: l :: table_lines rest true).
Proof.
  split.
  - pose proof (table_lines_isolated lines false [] eq_refl) as H.
    destruct (table_lines lines false) as [|x out]; [reflexivity|].
    cbn [isolated] in H. apply andb_prop in H. apply H.
  - intros l rest -> Hl. cbn [table_lines]. now rewrite Hl.
Qed.

Lemma table_lines_isolates_tables_witness :
  let lines := [py "|a|b|"; py "text"; py "|c|"] in
  is_table_line (py "|a|b|") = true
  /\ table_lines lines false
     = [[]; py "|a|b|"; []; py "text"; []; py "|c|"]
  /\ tables_isolated (table_lines lines false) = true.
Proof.
  intros lines. split; [reflexivity|].
  destruct (table_lines_isolates_tables lines) as [I F].
  split; [|exact I].
  rewrite (F (py "|a|b|") [py "text"; py "|c|"] eq_refl eq_refl).
  reflexivity.
Defined.

(** X6: the table loop only adds empty lines: its output is its input with
    empty lines put in, every line of the input kept in its place (the
    empty ones too); so the non-empty lines of the output are those of the
    input, in the same order.  This holds whatever [prev_was_table] is at
    the start. *)
Theorem table_lines_keeps_lines (lines : list str) (prev_was_table : bool) :
  adds_empty_lines lines (table_lines lines prev_was_table)
  /\ filter truthy (table_lines lines prev_was_table) = filter truthy lines.
Proof.
  split; revert prev_was_table;
    induction lines as [|l lines IH]; intros prev;
    try constructor; cbn [table_lines].
  - destruct (is_table_line l), prev; cbn [andb negb app];
      repeat constructor; apply IH.
  - rewrite filter_app. cbn [filter]. rewrite IH.
    destruct (is_table_line l), prev; reflexivity.
Qed.

(* ------------------------------------------------------------------ *)
(** ** The lines of a page *)

Section PageLines.

Lemma solid_strip (t : str) : strip t <> [] -> solid (strip t).
Proof. intros H. split; [exact H | apply strip_idem]. Qed.

Lemma solid_head (x : str) :
  solid x -> exists c t, x = c :: t /\ isspace c = false.
Proof.
  intros [Hn Hs]. destruct x as [|c t]; [congruence|].
  exists c, t. split; [reflexivity|]. exact (strip_head _ _ _ Hs).
Qed.

Lemma solid_rstrip (x : str) : solid x -> rstrip x = x.
Proof.
  intros H. destruct (solid_head x H) as (c & t & -> & Hc).
  destruct H as [_ H]. now rewrite (strip_cons _ _ Hc), <- rstrip_cons in H.
Qed.

Lemma solid_app (x sep y : str) : solid x -> solid y -> solid (x ++ sep ++ y).
Proof.
  intros Hx Hy. destruct (solid_head x Hx) as (c & t & -> & Hc).
  split; [discriminate|].
  cbn [app]. rewrite (strip_cons _ _ Hc). f_equal.
  rewrite app_assoc, rstrip_app; rewrite (solid_rstrip y Hy).
  - now rewrite <- app_assoc.
  - now destruct Hy.
Qed.

Lemma solid_join (sep : str) (xs : list str) :
  Forall solid xs -> xs <> [] -> solid (join sep xs).
Proof.
  induction xs as [|x xs IH]; intros H Hn; [congruence|].
  inversion H as [|? ? Hx Hxs]; subst.
  destruct xs as [|y ys]; [exact Hx|].
  change (join sep (x :: y :: ys)) with (x ++ sep ++ join sep (y :: ys)).
  apply solid_app; [exact Hx|]. apply IH; [exact Hxs | discriminate].
Qed.

Lemma line_step_solid (acc : list str) (l : line) :
  Forall solid acc -> Forall solid (line_step acc l).
Proof.
  intros H. unfold line_step.
  destruct (truthy (strip _)) eqn:E; [|exact H].
  apply Forall_app. split; [exact H|]. constructor; [|constructor].
  apply solid_strip. now apply truthy_true.
Qed.

Lemma block_step_solid (acc : list str) (b : block) :
  Forall solid acc -> Forall solid (block_step acc b).
Proof.
  unfold block_step. destruct (block_lines b) as [lines|]; [|auto].
  revert acc. induction lines as [|l lines IH]; intros acc H; [exact H|].
  simpl. apply IH. now apply line_step_solid.
Qed.

Lemma markdown_lines_solid (blocks : text_dict) :
  Forall solid (markdown_lines_of blocks).
Proof.
  unfold markdown_lines_of.
  assert (G : forall bs acc, Forall solid acc ->
                             Forall solid (fold_left block_step bs acc)).
  { induction bs as [|b bs IH]; intros acc H; [exact H|].
    simpl. apply IH. now apply block_step_solid. }
  apply G. constructor.
Qed.

End PageLines.

(** X7: every line of a page is non-empty and trimmed, and so is the page
    text when there is a line; the page text is empty exactly when the page
    has no line, so [pdf_to_markdown] drops a page only then. *)
Theorem process_pdf_blocks_is_trimmed
        (blocks : text_dict) (page_num : nat) (options : py_options) :
  Forall solid (markdown_lines_of blocks)
  /\ strip (_process_pdf_blocks blocks page_num options)
     = _process_pdf_blocks blocks page_num options
  /\ (strip (_process_pdf_blocks blocks page_num options) = []
      <-> markdown_lines_of blocks = []).
Proof.
  pose proof (markdown_lines_solid blocks) as H.
  unfold _process_pdf_blocks. cbv zeta. fold (markdown_lines_of blocks).
  split; [exact H|].
  destruct (markdown_lines_of blocks) as [|x xs] eqn:E.
  - split; [reflexivity|]. split; reflexivity.
  - assert (S : solid (join [NL; NL] (x :: xs))).
    { apply solid_join; [exact H | discriminate]. }
    destruct S as [Sn Ss]. split; [exact Ss|].
    rewrite Ss. split; intros A; [contradiction | discriminate].
Qed.

(* ------------------------------------------------------------------ *)
(** ** Lines of body text *)

Section BodyLines.

Lemma small_size (sz : Q) :
  Qgtb sz 12 = false -> Qgtb sz 14 = false /\ Qgtb sz 16 = false.
Proof.
  intros H. apply Qgtb_false in H.
  split; apply Qgtb_false; (eapply Qle_trans; [exact H | discriminate]).
Qed.

Lemma span_step_body_text (acc : str) (sp : span) :
  is_blank_span sp = false ->
  is_heading_span sp = false ->
  span_step acc sp = acc ++ body_text sp ++ [SPACE].
Proof.
  unfold is_heading_span, is_blank_span, span_step, body_text.
  intros Hb Hh. rewrite Hb in *. cbn [negb andb] in Hh.
  destruct (small_size _ Hh) as [H14 H16]. rewrite H16, H14, Hh.
  reflexivity.
Qed.

Lemma solid_wrap (a b : N) (m : str) :
  isspace a = false -> isspace b = false -> solid ((a :: m) ++ [b]).
Proof.
  intros Ha Hb. split; [discriminate|].
  cbn [app]. rewrite (strip_cons _ _ Ha). f_equal.
  rewrite rstrip_app; [|rewrite (rstrip_cons _ _ Hb); discriminate].
  now rewrite (rstrip_cons _ _ Hb).
Qed.

Lemma body_text_solid (sp : span) :
  is_blank_span sp = false -> solid (body_text sp).
Proof.
  unfold is_blank_span, body_text. intros H.
  apply negb_false_iff, truthy_true in H.
  set (t := strip (get (span_text sp) [])) in *.
  destruct (negb (Z.land _ (2 ^ 4) =? 0)%Z), (negb (Z.land _ (2 ^ 1) =? 0)%Z).
  - change (py "*" ++ (py "**" ++ t ++ py "**") ++ py "*")
      with ((STAR :: STAR :: STAR :: t ++ [STAR; STAR]) ++ [STAR]).
    now apply solid_wrap.
  - change (py "**" ++ t ++ py "**") with (STAR :: STAR :: t ++ [STAR; STAR]).
    replace (STAR :: STAR :: t ++ [STAR; STAR])
      with ((STAR :: STAR :: t ++ [STAR]) ++ [STAR])
      by (simpl; now rewrite <- app_assoc).
    now apply solid_wrap.
  - change (py "*" ++ t ++ py "*") with ((STAR :: t) ++ [STAR]).
    now apply solid_wrap.
  - now apply solid_strip.
Qed.

Lemma fold_body_text (spans : list span) :
  forallb (fun sp => negb (is_heading_span sp)) spans = true ->
  forall acc,
    fold_left span_step spans acc
    = acc ++ List.concat (map (fun sp => body_text sp ++ [SPACE])
                         (filter (fun sp => negb (is_blank_span sp)) spans)).
Proof.
  induction spans as [|sp spans IH]; intros H acc; simpl.
  - now rewrite app_nil_r.
  - simpl in H. apply andb_prop in H. destruct H as [Hh Hs].
    apply negb_true_iff in Hh. rewrite (IH Hs).
    destruct (is_blank_span sp) eqn:Eb; cbn [negb].
    + now rewrite (span_step_blank _ _ Eb).
    + rewrite (span_step_body_text acc sp Eb Hh). simpl.
      now rewrite <- !app_assoc.
Qed.

Lemma concat_spaces (x : str) (xs : list str) :
  List.concat (map (fun y => y ++ [SPACE]) (x :: xs))
  = join [SPACE] (x :: xs) ++ [SPACE].
Proof.
  revert x. induction xs as [|y ys IH]; intros x.
  - simpl. now rewrite app_nil_r.
  - change (List.concat (map (fun y => y ++ [SPACE]) (x :: y :: ys)))
      with ((x ++ [SPACE]) ++ List.concat (map (fun y => y ++ [SPACE]) (y :: ys))).
    rewrite IH.
    change (join [SPACE] (x :: y :: ys))
      with (x ++ [SPACE] ++ join [SPACE] (y :: ys)).
    now rewrite <- !app_assoc.
Qed.

Lemma rstrip_snoc_space (s : str) (c : N) :
  isspace c = true -> rstrip (s ++ [c]) = rstrip s.
Proof.
  intros H. unfold rstrip. rewrite rev_app_distr. simpl. now rewrite H.
Qed.

Lemma strip_solid_space (x : str) : solid x -> strip (x ++ [SPACE]) = x.
Proof.
  intros H. destruct (solid_head x H) as (c & t & E & Hc).
  pose proof (solid_rstrip x H) as R. subst x.
  cbn [app]. rewrite (strip_cons _ _ Hc).
  rewrite rstrip_snoc_space by reflexivity.
  now rewrite (rstrip_cons _ _ Hc) in R.
Qed.

End BodyLines.

(** X8: a line without heading spans is emitted as the texts of its
    non-blank spans, each in its bold and italic wrapping, joined by single
    spaces; when all its spans are blank nothing is emitted. *)
Theorem body_line_joins_spans_with_spaces
        (markdown_lines : list str) (spans : list span) :
  forallb (fun sp => negb (is_heading_span sp)) spans = true ->
  line_step markdown_lines (mk_line (Some spans))
  = match filter (fun sp => negb (is_blank_span sp)) spans with
    | [] => markdown_lines
    | shown => markdown_lines ++ [join [SPACE] (map body_text shown)]
    end.
Proof.
  intros H. unfold line_step, line_text_of. cbn [line_spans get].
  rewrite (fold_body_text spans H []). cbn [app].
  assert (S : Forall solid
                (map body_text
                     (filter (fun sp => negb (is_blank_span sp)) spans))).
  { apply Forall_map, Forall_forall. intros sp Hin.
    apply filter_In in Hin. destruct Hin as [_ Hb].
    apply body_text_solid. now apply negb_true_iff. }
  rewrite <- (map_map body_text (fun y => y ++ [SPACE])).
  destruct (filter _ spans) as [|sp shown]; [reflexivity|].
  cbn [map] in S.
  change (map body_text (sp :: shown)) with (body_text sp :: map body_text shown).
  rewrite concat_spaces.
  assert (J : solid (join [SPACE] (body_text sp :: map body_text shown))).
  { apply solid_join; [exact S | discriminate]. }
  rewrite (strip_solid_space _ J).
  destruct J as [Jn _]. apply truthy_true in Jn. now rewrite Jn.
Qed.

Lemma body_line_joins_spans_with_spaces_witness :
  let spans := [a_span " See " 10 0; a_span "  " 10 16; a_span "this" 12 16;
                a_span "now" 9 2] in
  forallb (fun sp => negb (is_heading_span sp)) spans = true
  /\ line_step [] (mk_line (Some spans)) = [py "See **this** *now*"].
Proof.
  intros spans. split; [reflexivity|].
  exact (body_line_joins_spans_with_spaces [] spans eq_refl).
Defined.

(* ------------------------------------------------------------------ *)
(** ** The newline before a list item *)

Section ListItems.

Lemma try_down_fails {A} (f : nat -> option A) (lo k : nat) :
  (forall j, (j <= k)%nat -> f j = None) -> try_down f lo k = None.
Proof.
  induction k as [|k IH]; intros H; simpl; rewrite (H _ (le_n _)).
  - now destruct (Nat.ltb 0 lo).
  - destruct (Nat.ltb (S k) lo); [reflexivity|]. apply IH.
    intros j Hj. apply H. lia.
Qed.

Lemma try_down_top {A} (f : nat -> option A) (lo k : nat) :
  (forall j, (j < k)%nat -> f j = None) -> (lo <= k)%nat ->
  try_down f lo k = f k.
Proof.
  intros H L. apply Nat.ltb_ge in L.
  destruct k as [|k]; simpl; rewrite L; destruct (f _) eqn:E; try reflexivity.
  apply try_down_fails. intros j Hj. apply H. lia.
Qed.

Lemma lstrip_greedy (s : str) : lstrip s = skipn (greedy ws None s) s.
Proof.
  induction s as [|c s IH]; [reflexivity|].
  simpl. unfold ws at 1. destruct (isspace c); [exact IH | reflexivity].
Qed.

Lemma greedy_inside (s : str) :
  forall k, (k < greedy ws None s)%nat ->
            exists c t, skipn k s = c :: t /\ isspace c = true.
Proof.
  induction s as [|c s IH]; intros k H; [simpl in H; lia|].
  simpl in H. unfold ws at 1 in H. destruct (isspace c) eqn:E; [|lia].
  destruct k as [|k]; [now exists c, s|].
  apply IH. lia.
Qed.

Lemma marker_not_space (c : N) : is_list_marker c = true -> isspace c = false.
Proof.
  unfold is_list_marker. intros H.
  destruct (c =? DASH) eqn:E1; [apply N.eqb_eq in E1; now subst c|].
  destruct (c =? STAR) eqn:E2; [apply N.eqb_eq in E2; now subst c|].
  destruct (c =? PLUS) eqn:E3; [apply N.eqb_eq in E3; now subst c|].
  discriminate.
Qed.

(** The part of the pattern after the newline, at the first character of
    the next line. *)
Lemma match_item_tail (s : str) :
  let n := greedy ws None s in
  rmatch [GOpen 1%nat; Rep ws 0%nat None;
          Rep (fun c => (c =? DASH) || (c =? STAR) || (c =? PLUS))
              1%nat (Some 1%nat);
          GClose 1%nat] s 1 [] []
  = if starts_item s
    then Some (S (S n), [(1%nat, (1%nat, S (S n)))])
    else None.
Proof.
  intros n. cbn [rmatch lookup Nat.eqb].
  fold is_list_marker.
  set (g := fun k : nat => try_down _ 1 (greedy is_list_marker (Some 1%nat)
                                                 (skipn k s))).
  assert (Gin : forall j, (j < n)%nat -> g j = None).
  { intros j Hj. unfold g.
    destruct (greedy_inside s j Hj) as (c & t & E & Hc). rewrite E.
    cbn [greedy]. destruct (is_list_marker c) eqn:Em.
    - rewrite (marker_not_space c Em) in Hc. discriminate.
    - reflexivity. }
  fold n. rewrite (try_down_top g 0 n Gin) by lia.
  unfold g, starts_item. rewrite lstrip_greedy. fold n.
  destruct (skipn n s) as [|m t]; [reflexivity|].
  cbn [greedy]. destruct (is_list_marker m); [|reflexivity].
  rewrite greedy_zero. cbn [try_down Nat.ltb Nat.leb].
  replace (1 + n + 1)%nat with (S (S n)) by lia. reflexivity.
Qed.

Lemma match_list_item (c : N) (s : str) :
  match_at re_list_item (c :: s)
  = if (c =? NL) && starts_item s
    then let n := greedy ws None s in
         Some (S (S n), [(1%nat, (1%nat, S (S n)))])
    else None.
Proof.
  unfold match_at, re_list_item, only.
  change (rmatch (Rep (fun x => x =? NL) 1 (Some 1%nat) :: ?r) ?s ?p ?o ?c)
    with (try_down (fun k => rmatch r (skipn k s) (p + k)%nat o c) 1
                   (greedy (fun x => x =? NL) (Some 1%nat) s)).
  cbn [greedy]. cbn beta. rewrite greedy_zero.
  destruct (c =? NL); cbn [andb]; [|reflexivity].
  cbn [try_down Nat.ltb Nat.leb skipn Nat.add].
  rewrite (match_item_tail s). cbv zeta.
  destruct (starts_item s); reflexivity.
Qed.

Lemma list_gap_run (s : str) :
  starts_item s = true ->
  list_gap s true
  = firstn (S (greedy ws None s)) s
    ++ list_gap (skipn (S (greedy ws None s)) s) false.
Proof.
  induction s as [|c s IH]; intros H; [discriminate|].
  unfold starts_item in H. cbn [lstrip] in H.
  cbn [list_gap greedy]. unfold ws at 1 3.
  rewrite andb_false_r. cbn [andb].
  destruct (isspace c) eqn:E.
  - cbn [firstn skipn app]. f_equal. now apply IH.
  - reflexivity.
Qed.

Lemma fix_list_formatting_bounded (n : nat) :
  forall s, (List.length s <= n)%nat ->
            sub_aux re_list_item to_list_item s 0 = list_gap s false.
Proof.
  induction n as [|n IH]; intros [|c s] Hlen; try reflexivity.
  - simpl in Hlen. lia.
  - rewrite sub_cons, match_list_item. cbn [list_gap negb].
    rewrite andb_true_r. simpl in Hlen.
    destruct ((c =? NL) && starts_item s) eqn:E.
    + cbv zeta. apply andb_prop in E. destruct E as [_ Es].
      set (k := greedy ws None s).
      unfold to_list_item, expand, group. cbn [lookup Nat.eqb].
      replace (S (S k) - 1)%nat with (S k) by lia.
      change (skipn 1 (c :: s)) with s.
      rewrite app_nil_r, IH by (rewrite length_skipn; lia).
      rewrite (list_gap_run s Es). reflexivity.
    + cbn [andb]. f_equal. apply IH. lia.
Qed.

End ListItems.

(** X9: the list rule puts one more newline in front of a newline that is
    followed, after any white space (further newlines included), by [-],
    [*] or [+]; that white space is kept as it is and nothing else is
    changed. *)
Theorem fix_list_formatting_inserts_newline (s : str) :
  fix_list_formatting s = list_gap s false.
Proof.
  unfold fix_list_formatting, sub.
  apply (fix_list_formatting_bounded (List.length s)). lia.
Qed.

(* ------------------------------------------------------------------ *)
(** ** The newline after a heading *)

Section HeadingAfter.

Lemma line_len_cons (c : N) (s : str) :
  line_len (c :: s) = if c =? NL then O else S (line_len s).
Proof.
  unfold line_len. cbn [greedy]. unfold dot at 1.
  now destruct (c =? NL).
Qed.

Lemma line_end (s : str) :
  skipn (line_len s) s = [] \/ exists r, skipn (line_len s) s = NL :: r.
Proof.
  induction s as [|c s IH]; [now left|].
  rewrite line_len_cons. destruct (c =? NL) eqn:E.
  - right. apply N.eqb_eq in E. subst c. now exists s.
  - exact IH.
Qed.

Lemma line_inside (s : str) :
  forall k, (k < line_len s)%nat ->
            exists c t, skipn k s = c :: t /\ (c =? NL) = false.
Proof.
  induction s as [|c s IH]; intros k H; [cbv in H; lia|].
  rewrite line_len_cons in H. destruct (c =? NL) eqn:E; [lia|].
  destruct k as [|k]; [now exists c, s|].
  apply IH. lia.
Qed.

Lemma line_len_skipn (s : str) :
  forall j, (j <= line_len s)%nat ->
            line_len (skipn j s) = (line_len s - j)%nat
            /\ text_follows (skipn j s) = text_follows s.
Proof.
  induction s as [|c s IH]; intros j H.
  - destruct j; split; reflexivity.
  - destruct j as [|j]; [split; [cbn [skipn]; lia | reflexivity]|].
    rewrite line_len_cons in *. destruct (c =? NL) eqn:E; [lia|].
    cbn [skipn]. destruct (IH j) as [I1 I2]; [lia|].
    split; [rewrite I1; lia|].
    rewrite I2. unfold text_follows. rewrite line_len_cons, E. reflexivity.
Qed.

Lemma hashes_in_line (s : str) :
  forall hi, (greedy (only HASH) hi s <= line_len s)%nat.
Proof.
  induction s as [|c s IH]; intros hi; [destruct hi as [[|]|]; cbv; lia|].
  rewrite line_len_cons.
  destruct hi as [[|h]|]; cbn [greedy]; try lia; unfold only at 1;
    destruct (c =? HASH) eqn:E; try lia;
    apply N.eqb_eq in E; subst c; cbn [N.eqb]; simpl;
    match goal with |- (S (greedy _ ?x _) <= _)%nat =>
      specialize (IH x); lia end.
Qed.

(** The pattern from [.*] on, at offset [p] of the match. *)
Lemma match_after_tail (t : str) (p : nat) :
  rmatch [Rep dot 0%nat None; GClose 1%nat; Rep (only NL) 1%nat (Some 1%nat);
          GOpen 2%nat;
          Rep (fun c => negb ((c =? NL) || (c =? HASH))) 1%nat (Some 1%nat);
          GClose 2%nat] t p [(1%nat, O)] []
  = let e := (p + line_len t)%nat in
    if text_follows t
    then Some (S (S e), [(2%nat, (S e, S (S e))); (1%nat, (O, e))])
    else None.
Proof.
  cbn [rmatch lookup Nat.eqb]. fold (line_len t). cbv zeta.
  set (g := fun k : nat => try_down _ 1 (greedy (only NL) (Some 1%nat)
                                                 (skipn k t))).
  assert (Gin : forall j, (j < line_len t)%nat -> g j = None).
  { intros j Hj. unfold g.
    destruct (line_inside t j Hj) as (c & r & E & Hc). rewrite E.
    cbn [greedy]. unfold only. now rewrite Hc. }
  rewrite (try_down_top g 0 (line_len t) Gin) by lia.
  unfold g, text_follows.
  destruct (line_end t) as [E | [r E]]; rewrite E; [reflexivity|].
  cbn [greedy]. unfold only. change (NL =? NL) with true. cbv iota.
  rewrite greedy_zero.
  cbn [try_down Nat.ltb Nat.leb skipn rmatch lookup Nat.eqb].
  destruct r as [|y r]; [reflexivity|].
  cbn [starts_text greedy].
  destruct (negb ((y =? NL) || (y =? HASH))); [|reflexivity].
  rewrite greedy_zero. cbn [try_down Nat.ltb Nat.leb].
  replace (p + line_len t + 1 + 1)%nat with (S (S (p + line_len t))) by lia.
  replace (p + line_len t + 1)%nat with (S (p + line_len t)) by lia.
  reflexivity.
Qed.

Lemma match_heading_after (c : N) (s : str) :
  match_at re_heading_after (c :: s)
  = if (c =? HASH) && text_follows (c :: s)
    then let e := line_len (c :: s) in
         Some (S (S e), [(2%nat, (S e, S (S e))); (1%nat, (O, e))])
    else None.
Proof.
  unfold match_at, re_heading_after.
  change (rmatch (GOpen 1 :: Rep (only HASH) 1 (Some 6%nat) :: ?r) ?s 0 [] [])
    with (try_down (fun k => rmatch r (skipn k s) (0 + k)%nat [(1%nat, O)] [])
                   1 (greedy (only HASH) (Some 6%nat) s)).
  set (f := fun k : nat => rmatch _ (skipn k (c :: s)) (0 + k)%nat _ []).
  pose proof (hashes_in_line (c :: s) (Some 6%nat)) as Hh.
  assert (F : forall j, (j <= greedy (only HASH) (Some 6%nat) (c :: s))%nat ->
                        f j = if text_follows (c :: s)
                              then let e := line_len (c :: s) in
                                   Some (S (S e),
                                         [(2%nat, (S e, S (S e)));
                                          (1%nat, (O, e))])
                              else None).
  { intros j Hj. unfold f. rewrite match_after_tail. cbv zeta.
    destruct (line_len_skipn (c :: s) j) as [L1 L2]; [lia|].
    rewrite L1, L2.
    replace (0 + j + (line_len (c :: s) - j))%nat with (line_len (c :: s))
      by lia.
    reflexivity. }
  destruct (c =? HASH) eqn:Ec; cbn [andb].
  - assert (H1 : (1 <= greedy (only HASH) (Some 6%nat) (c :: s))%nat).
    { cbn [greedy]. unfold only at 1. rewrite Ec. lia. }
    destruct (text_follows (c :: s)) eqn:Et.
    + apply try_down_hit; [exact H1|]. rewrite F by lia. reflexivity.
    + apply try_down_fails. intros j Hj. now rewrite F.
  - cbn [greedy]. unfold only at 1. rewrite Ec. reflexivity.
Qed.

Lemma heading_gap_line (s : str) :
  forall seen,
    heading_gap s seen
    = firstn (line_len s) s
      ++ heading_gap (skipn (line_len s) s)
                     (seen || contains HASH (firstn (line_len s) s)).
Proof.
  induction s as [|c s IH]; intros seen; [reflexivity|].
  rewrite line_len_cons. destruct (c =? NL) eqn:E.
  - cbn [firstn skipn app contains existsb]. now rewrite orb_false_r.
  - cbn [heading_gap]. rewrite E. cbn [firstn skipn app]. f_equal.
    rewrite IH. f_equal. f_equal.
    unfold contains. cbn [existsb].
    rewrite (N.eqb_sym HASH c). now rewrite orb_assoc.
Qed.

Lemma heading_gap_seen (s : str) :
  text_follows s = false -> heading_gap s true = heading_gap s false.
Proof.
  induction s as [|c s IH]; intros H; [reflexivity|].
  unfold text_follows in H. rewrite line_len_cons in H.
  cbn [heading_gap]. destruct (c =? NL) eqn:E.
  - cbn [skipn] in H. rewrite H. reflexivity.
  - cbn [orb]. destruct (c =? HASH); [reflexivity|].
    f_equal. apply IH. exact H.
Qed.

Lemma fix_heading_after_bounded (n : nat) :
  forall s, (List.length s <= n)%nat ->
            sub_aux re_heading_after to_heading_after s 0
            = heading_gap s false.
Proof.
  induction n as [|n IH]; intros [|c s] Hlen; try reflexivity.
  - simpl in Hlen. lia.
  - rewrite sub_cons, match_heading_after. simpl in Hlen.
    destruct (c =? HASH) eqn:Ec; cbn [andb].
    + apply N.eqb_eq in Ec. subst c.
      destruct (text_follows (HASH :: s)) eqn:Et.
      * cbv zeta.
        assert (He : line_len (HASH :: s) = S (line_len s))
          by now rewrite line_len_cons.
        rewrite He. unfold text_follows in Et. rewrite He in Et.
        change (skipn (S (line_len s)) (HASH :: s))
          with (skipn (line_len s) s) in Et.
        destruct (line_end s) as [E | [r E]]; rewrite E in Et;
          [discriminate|].
        destruct r as [|y r]; [discriminate|].
        cbn [starts_text] in Et.
        assert (Sk : skipn (S (line_len s)) s = y :: r).
        { change (S (line_len s)) with (1 + line_len s)%nat.
          rewrite <- skipn_skipn, E. reflexivity. }
        assert (Sk' : skipn (S (S (line_len s))) s = r).
        { change (S (S (line_len s))) with (1 + S (line_len s))%nat.
          rewrite <- skipn_skipn, Sk. reflexivity. }
        unfold to_heading_after, expand, group. cbn [lookup Nat.eqb].
        replace (S (line_len s) - 0)%nat with (S (line_len s)) by lia.
        replace (S (S (S (line_len s))) - S (S (line_len s)))%nat
          with 1%nat by lia.
        change (skipn 0 (HASH :: s)) with (HASH :: s).
        change (skipn (S (S (line_len s))) (HASH :: s))
          with (skipn (S (line_len s)) s).
        change (firstn (S (line_len s)) (HASH :: s))
          with (HASH :: firstn (line_len s) s).
        rewrite Sk, Sk', app_nil_r, IH.
        2:{ apply (f_equal (@List.length N)) in Sk'.
            rewrite length_skipn in Sk'. lia. }
        rewrite (heading_gap_line (HASH :: s) false), He.
        change (skipn (S (line_len s)) (HASH :: s))
          with (skipn (line_len s) s).
        change (firstn (S (line_len s)) (HASH :: s))
          with (HASH :: firstn (line_len s) s).
        rewrite E. change (contains HASH (HASH :: ?l)) with true.
        cbn [orb heading_gap]. change (NL =? NL) with true. cbv iota.
        cbn [andb starts_text]. rewrite Et.
        apply negb_true_iff, orb_false_iff in Et. destruct Et as [Y1 Y2].
        rewrite Y1, Y2. cbn [orb firstn app].
        rewrite <- app_assoc. reflexivity.
      * cbn [heading_gap]. change (HASH =? NL) with false. cbv iota.
        cbn [orb]. change (HASH =? HASH) with true.
        f_equal. rewrite IH by lia. symmetry. apply heading_gap_seen.
        unfold text_follows in *. rewrite line_len_cons in Et. exact Et.
    + cbn [heading_gap]. rewrite Ec.
      destruct (c =? NL) eqn:En;
        [apply N.eqb_eq in En; subst c|];
        cbn [andb orb]; f_equal; apply IH; lia.
Qed.

End HeadingAfter.

(** X10: the third substitution puts one more newline after a line that
    has a [#] in it when the next line starts with a character other than a
    newline and [#]; nothing else is changed. *)
Theorem fix_heading_after_inserts_newline (s : str) :
  fix_heading_after s = heading_gap s false.
Proof.
  unfold fix_heading_after, sub.
  apply (fix_heading_after_bounded (List.length s)). lia.
Qed.

(* ------------------------------------------------------------------ *)
(** ** Properties of the results and errors *)

(** X11: the record of a successful conversion has [success = True], the
    input path it was given, the output path (the given one, or the input
    path with suffix [.md]), no [error], and a word count that is at most
    the character count. *)
Theorem successful_conversion_record
        {P : Platform} (input : str) (out : option str)
        (options : option py_options) (w w' : world) (r : result) :
  convert_to_markdown input out options w = (inr r, w') ->
  success r = true
  /\ input_path r = input
  /\ output_path r = Some (get out (path_with_suffix_md input))
  /\ error r = None
  /\ exists wc cc, word_count r = Some wc /\ char_count r = Some cc
                   /\ (wc <= cc)%nat.
Proof. apply convert_to_markdown_record. Qed.

Lemma successful_conversion_record_witness :
  let w := [ (py "in", Mem.Dir);
             (py "in/r.docx",
              Mem.OfficeFile (py "# T" ++ [NL] ++ py "two words")) ] in
  let md := py "# T" ++ [NL; NL] ++ py "two words" in
  let r := mk_result true (py "in/r.docx") (Some (py "in/r.md"))
                     (Some (py "office_to_markdown")) None (Some 0%Q)
                     (Some 14) (Some 4%nat) (Some 14%nat)
                     [ (py "generator", MStr (py "pandoc"));
                       (py "source_format", MStr (py ".docx")) ] None in
  convert_to_markdown (P := Mem.platform) (py "in/r.docx") None None w
  = (inr r, w ++ [(py "in/r.md", Mem.TextFile md)])
  /\ exists wc cc, (wc <= cc)%nat /\ wc = 4%nat /\ cc = 14%nat.
Proof.
  intros w md r.
  assert (E : convert_to_markdown (P := Mem.platform) (py "in/r.docx") None
                                  None w
              = (inr r, w ++ [(py "in/r.md", Mem.TextFile md)]))
    by reflexivity.
  split; [exact E|].
  destruct (successful_conversion_record _ _ _ _ _ _ E)
    as (_ & _ & _ & _ & wc & cc & Hw & Hc & L).
  exists wc, cc. split; [exact L|].
  simpl in Hw, Hc. injection Hw as <-. injection Hc as <-. now split.
Defined.

(** X12: once the clock has been read, whatever goes wrong in the office
    conversion (pandoc, reading its output, writing, the size) comes out as
    a [RuntimeError] whose message starts with [Pandoc conversion failed: ]
    or [Office conversion failed: ]. *)
Theorem office_errors_are_runtime_errors
        {P : Platform} (office_path out : str) (options : py_options)
        (w w1 w' : world) (t0 : Q) (e : exn) :
  datetime_now w = (inr t0, w1) ->
  office_to_markdown office_path out options w = (inl e, w') ->
  exists detail,
    e = RuntimeError (py "Pandoc conversion failed: " ++ detail)
    \/ e = RuntimeError (py "Office conversion failed: " ++ detail).
Proof.
  intros Hnow. unfold office_to_markdown, bind, ret, catch, raise.
  rewrite Hnow.
  destruct (subprocess_run _ w1) as [[x|u] w2];
    [intros H; destruct x; injection H as <- _; eexists;
     first [left; reflexivity | right; reflexivity]|].
  destruct (read_text _ w2) as [[x|text] w3];
    [intros H; destruct x; injection H as <- _; eexists;
     first [left; reflexivity | right; reflexivity]|].
  destruct (write_text _ _ w3) as [[x|u'] w4];
    [intros H; destruct x; injection H as <- _; eexists;
     first [left; reflexivity | right; reflexivity]|].
  destruct (datetime_now w4) as [[x|t1] w5];
    [intros H; destruct x; injection H as <- _; eexists;
     first [left; reflexivity | right; reflexivity]|].
  destruct (os_path_getsize _ w5) as [[x|size] w6];
    [intros H; destruct x; injection H as <- _; eexists;
     first [left; reflexivity | right; reflexivity]|].
  discriminate.
Qed.

Lemma office_errors_are_runtime_errors_witness :
  let w := [(py "report.docx", Mem.TextFile (py "docx bytes"))] in
  @datetime_now Mem.platform w = (inr 0%Q, w)
  /\ office_to_markdown (P := Mem.platform) (py "report.docx")
                        (py "report.md") empty_options w
     = (inl (RuntimeError
               (py "Pandoc conversion failed: pandoc: cannot read report.docx")),
        w)
  /\ exists detail,
      RuntimeError
        (py "Pandoc conversion failed: pandoc: cannot read report.docx")
      = RuntimeError (py "Pandoc conversion failed: " ++ detail)
      \/ RuntimeError
           (py "Pandoc conversion failed: pandoc: cannot read report.docx")
         = RuntimeError (py "Office conversion failed: " ++ detail).
Proof.
  intros w. split; [reflexivity|]. split; [reflexivity|].
  exact (office_errors_are_runtime_errors
           (P := Mem.platform) (py "report.docx") (py "report.md")
           empty_options w w w 0%Q _ eq_refl eq_refl).
Defined.

(* ------------------------------------------------------------------ *)
(** ** The pandoc format and the batch *)

(** X13: for every extension that the dispatch table sends to the office
    conversion, the format given to pandoc is that extension without its
    dot; for any other extension it is [docx]. *)
Theorem pandoc_format_follows_extension {P : Platform} (file_path : str) :
  let ext := str_lower (path_suffix file_path) in
  (dict_get ext supported_formats = Some OfficeHandler ->
   _get_pandoc_format file_path = skipn 1 ext)
  /\ (dict_get ext supported_formats <> Some OfficeHandler ->
      _get_pandoc_format file_path = py "docx").
Proof.
  intros ext. unfold _get_pandoc_format. fold ext.
  generalize ext. clear ext. intros e.
  unfold supported_formats. cbn [dict_get]. unfold str_eqb.
  repeat match goal with
         | |- context [list_eq_dec N.eq_dec ?a e] =>
             destruct (list_eq_dec N.eq_dec a e) as [<-|?]
         end;
    split; intros H; vm_compute in H |- *; congruence.
Qed.

Lemma pandoc_format_follows_extension_witness :
  dict_get (@str_lower Mem.platform (@path_suffix Mem.platform
                                       (py "docs/Report.DOCX")))
           supported_formats = Some OfficeHandler
  /\ _get_pandoc_format (P := Mem.platform) (py "docs/Report.DOCX")
     = py "docx"
  /\ dict_get (@str_lower Mem.platform (@path_suffix Mem.platform
                                          (py "docs/scan.pdf")))
              supported_formats <> Some OfficeHandler
  /\ _get_pandoc_format (P := Mem.platform) (py "docs/scan.pdf") = py "docx".
Proof.
  split; [reflexivity|]. split.
  - exact (proj1 (pandoc_format_follows_extension
                    (P := Mem.platform) (py "docs/Report.DOCX")) eq_refl).
  - split; [discriminate|].
    apply (proj2 (pandoc_format_follows_extension
                    (P := Mem.platform) (py "docs/scan.pdf"))).
    discriminate.
Defined.

Section Batch.

Context {P : Platform}.

Variables (input_dir output_dir : str) (options : option py_options).


End Batch.



(* ------------------------------------------------------------------ *)
(** ** More on the lines of a page *)

(** X15: a heading span is rendered from its text and size alone: the
    bold and italic flags are not looked at, and what the line held before
    is dropped. *)
Theorem heading_span_ignores_flags_and_line
        (t : option str) (size : option Q) (flags flags' : option Z)
        (line_text line_text' : str) :
  is_heading_span (mk_span t size flags) = true ->
  span_step line_text (mk_span t size flags)
  = span_step line_text' (mk_span t size flags')
  /\ span_step line_text (mk_span t size flags)
     = heading_text (mk_span t size None).
Proof.
  intros H.
  assert (H' : is_heading_span (mk_span t size flags') = true) by exact H.
  rewrite (span_step_heading line_text _ H), (span_step_heading line_text' _ H').
  split; reflexivity.
Qed.

Lemma heading_span_ignores_flags_and_line_witness :
  is_heading_span (a_span "Title" 18 16) = true
  /\ span_step (py "before ") (a_span "Title" 18 16) = py "# Title"
  /\ span_step [] (a_span "Title" 18 2) = py "# Title".
Proof.
  split; [reflexivity|].
  destruct (heading_span_ignores_flags_and_line
              (Some (py "Title")) (Some 18%Q) (Some 16%Z) (Some 2%Z)
              (py "before ") [] eq_refl) as [E1 E2].
  split; [exact E2 | exact (eq_trans (eq_sym E1) E2)].
Defined.

Section LinesOfBlocks.

Lemma fold_line_step (lines : list line) :
  forall acc, fold_left line_step lines acc = acc ++ flat_map line_out lines.
Proof.
  induction lines as [|l lines IH]; intros acc; simpl.
  - now rewrite app_nil_r.
  - rewrite IH. unfold line_step, line_out.
    destruct (truthy _); [now rewrite <- app_assoc | reflexivity].
Qed.

Lemma fold_block_step (bs : list block) :
  forall acc,
    fold_left block_step bs acc
    = acc ++ flat_map (fun b => flat_map line_out (get (block_lines b) [])) bs.
Proof.
  induction bs as [|b bs IH]; intros acc; simpl.
  - now rewrite app_nil_r.
  - rewrite IH. unfold block_step.
    destruct (block_lines b) as [lines|]; simpl.
    + now rewrite fold_line_step, <- app_assoc.
    + reflexivity.
Qed.

End LinesOfBlocks.

(** X16: the text of a page is made line by line: each line of each block
    gives its trimmed text or, when that is empty, nothing, in the order of
    the extractor; blocks without lines (images) and a page dictionary
    without blocks give nothing; the lines are joined by blank lines. *)
Theorem process_pdf_blocks_line_by_line
        (blocks : text_dict) (page_num : nat) (options : py_options) :
  _process_pdf_blocks blocks page_num options
  = join [NL; NL]
         (flat_map (fun b => flat_map line_out (get (block_lines b) []))
                   (get (dict_blocks blocks) [])).
Proof.
  unfold _process_pdf_blocks. cbv zeta. now rewrite fold_block_step.
Qed.

(* ------------------------------------------------------------------ *)
(** ** The visible text *)

Section Visible.

Lemma visible_app (a b : str) : visible (a ++ b) = visible a ++ visible b.
Proof. apply filter_app. Qed.

Lemma visible_nl (s : str) : visible (NL :: s) = visible s.
Proof. reflexivity. Qed.

Lemma visible_lstrip (s : str) : visible (lstrip s) = visible s.
Proof.
  induction s as [|c s IH]; [reflexivity|].
  simpl. destruct (isspace c) eqn:E; [exact IH|].
  simpl. now rewrite E.
Qed.

Lemma visible_rev (s : str) : visible (rev s) = rev (visible s).
Proof.
  induction s as [|c s IH]; [reflexivity|].
  simpl. rewrite visible_app, IH. simpl.
  destruct (isspace c); simpl; [now rewrite app_nil_r | reflexivity].
Qed.

Lemma visible_strip (s : str) : visible (strip s) = visible s.
Proof.
  unfold strip, rstrip.
  now rewrite visible_rev, visible_lstrip, visible_rev, rev_involutive,
    visible_lstrip.
Qed.

Lemma visible_skip_run (s : str) : visible (skipn (nlrun s) s) = visible s.
Proof.
  induction s as [|c s IH]; [reflexivity|].
  rewrite nlrun_cons. destruct (c =? NL) eqn:E; [|reflexivity].
  apply N.eqb_eq in E. subst c. cbn [skipn]. now rewrite visible_nl.
Qed.

Lemma visible_newlines_bounded (n : nat) :
  forall s, (List.length s <= n)%nat ->
            visible (sub_aux re_newlines to_two_newlines s 0) = visible s.
Proof.
  induction n as [|n IH]; intros [|c s] Hlen; try reflexivity.
  - simpl in Hlen. lia.
  - rewrite sub_cons, match_newlines. simpl in Hlen.
    destruct (Nat.leb 3 (nlrun (c :: s))) eqn:E.
    + apply Nat.leb_le in E. rewrite nlrun_cons in *.
      destruct (c =? NL) eqn:Ec; [|lia].
      apply N.eqb_eq in Ec. subst c.
      cbn [to_two_newlines expand app]. rewrite !visible_nl.
      rewrite IH by (rewrite length_skipn; lia).
      apply visible_skip_run.
    + unfold visible. cbn [filter].
      change (filter (fun x => negb (isspace x))) with visible.
      now rewrite IH by lia.
Qed.

Lemma visible_newline_before_headings (s : str) :
  visible (newline_before_headings s) = visible s.
Proof.
  induction s as [|c s IH]; [reflexivity|].
  cbn [newline_before_headings].
  destruct ((c =? NL) && startswith1 HASH s) eqn:E.
  - apply andb_prop in E. destruct E as [E _].
    apply N.eqb_eq in E. subst c. now rewrite !visible_nl.
  - simpl. now rewrite IH.
Qed.

Lemma visible_heading_gap (s : str) :
  forall seen, visible (heading_gap s seen) = visible s.
Proof.
  induction s as [|c s IH]; intros seen; [reflexivity|].
  cbn [heading_gap]. destruct (c =? NL) eqn:E.
  - apply N.eqb_eq in E. subst c.
    destruct (seen && starts_text s); now rewrite !visible_nl, IH.
  - simpl. now rewrite IH.
Qed.

Lemma visible_list_gap (s : str) :
  forall inrun, visible (list_gap s inrun) = visible s.
Proof.
  induction s as [|c s IH]; intros inrun; [reflexivity|].
  cbn [list_gap].
  destruct ((c =? NL) && negb inrun && starts_item s) eqn:E.
  - apply andb_prop in E. destruct E as [E _].
    apply andb_prop in E. destruct E as [E _].
    apply N.eqb_eq in E. subst c. now rewrite !visible_nl, IH.
  - simpl. now rewrite IH.
Qed.

Lemma visible_join (lines : list str) :
  visible (join [NL] lines) = List.concat (map visible lines).
Proof.
  induction lines as [|l lines IH]; [reflexivity|].
  destruct lines as [|l' lines].
  - simpl. now rewrite app_nil_r.
  - change (join [NL] (l :: l' :: lines))
      with (l ++ [NL] ++ join [NL] (l' :: lines)).
    rewrite visible_app. cbn [app]. rewrite visible_nl, IH. reflexivity.
Qed.

Lemma visible_table_lines (lines : list str) :
  forall prev,
    List.concat (map visible (table_lines lines prev))
    = List.concat (map visible lines).
Proof.
  induction lines as [|l lines IH]; intros prev; [reflexivity|].
  cbn [table_lines]. rewrite map_app, concat_app. cbn [map List.concat].
  rewrite IH.
  destruct (is_table_line l), prev; reflexivity.
Qed.

End Visible.

(** X17: the normalization pass only adds and removes white space: the
    characters of its output that are not white space are those of its
    input, in the same order. *)
Theorem clean_markdown_keeps_visible_text (s : str) :
  visible (_clean_markdown s) = visible s.
Proof.
  unfold _clean_markdown. cbv zeta.
  rewrite visible_strip, visible_join, visible_table_lines, <- visible_join,
    join_split_nl.
  unfold fix_list_formatting, fix_heading_after, fix_heading_before,
    remove_excessive_newlines, sub.
  rewrite (fix_list_formatting_bounded _ _ (le_n _)), visible_list_gap.
  rewrite (fix_heading_after_bounded _ _ (le_n _)), visible_heading_gap.
  rewrite (fix_heading_before_bounded _ _ (le_n _)),
    visible_newline_before_headings.
  apply (visible_newlines_bounded _ _ (le_n _)).
Qed.

(* ------------------------------------------------------------------ *)
(** ** The pass on blocks and runs: the five steps *)

Lemma render_parse (s : str) : render (fst (parse s)) (snd (parse s)) = s.
Proof.
  induction s as [|c s IH]; [reflexivity|].
  cbn [parse]. destruct (parse s) as [b l]. cbn [fst snd] in IH.
  destruct (c =? NL) eqn:E.
  - apply N.eqb_eq in E. subst c. unfold render in *.
    destruct b as [|x b]; [destruct l as [|[r b'] l']|];
      cbn [fst snd rest_text app repeat] in *; now rewrite <- IH.
  - unfold render in *. cbn [fst snd app] in *. now rewrite IH.
Qed.

Lemma wf_parse (s : str) : wf (fst (parse s)) (snd (parse s)).
Proof.
  induction s as [|c s IH]; [now split|].
  cbn [parse]. destruct (parse s) as [b l]. cbn [fst snd] in IH.
  destruct IH as [Hb Hl].
  destruct (c =? NL) eqn:E.
  - destruct b as [|x b]; [destruct l as [|[r b'] l']|]; cbn [fst snd].
    + split; [reflexivity|]. cbn. repeat split; auto.
    + split; [reflexivity|]. cbn in Hl |- *. destruct Hl as (H1 & H2 & H3 & H4).
      repeat split; auto; lia.
    + split; [reflexivity|]. cbn [wf_sites]. repeat split; auto; discriminate.
  - split; [|exact Hl]. cbn [fst forallb]. unfold dot at 1. now rewrite E, Hb.
Qed.

Lemma nlrun_repeat (r : nat) (t : str) :
  nlrun (repeat NL r ++ t) = (r + nlrun t)%nat.
Proof.
  induction r as [|r IH]; [reflexivity|].
  cbn [repeat app]. rewrite nlrun_cons. cbn. now rewrite IH.
Qed.

Lemma nlrun_block (b : str) (l : sites) :
  forallb dot b = true -> (b = [] -> l = []) -> nlrun (b ++ rest_text l) = O.
Proof.
  intros Hb Hl. destruct b as [|c b].
  - now rewrite (Hl eq_refl).
  - cbn [app]. rewrite nlrun_cons. cbn [forallb] in Hb.
    apply andb_prop in Hb. destruct Hb as [Hc _]. unfold dot in Hc.
    now destruct (c =? NL).
Qed.

Lemma skipn_repeat (r : nat) (t : str) : skipn r (repeat NL r ++ t) = t.
Proof. induction r; [reflexivity | exact IHr]. Qed.

(** Rule 1, the cap on runs of newlines *)
Lemma collapse_block (b t : str) :
  forallb dot b = true ->
  sub_aux re_newlines to_two_newlines (b ++ t) 0
  = b ++ sub_aux re_newlines to_two_newlines t 0.
Proof.
  induction b as [|c b IH]; intros Hb; [reflexivity|].
  cbn [forallb] in Hb. apply andb_prop in Hb. destruct Hb as [Hc Hb].
  cbn [app]. rewrite sub_cons, match_newlines, nlrun_cons.
  unfold dot in Hc. destruct (c =? NL); [discriminate|].
  cbn. now rewrite IH.
Qed.

Lemma collapse_short (c : N) (s : str) :
  (nlrun (c :: s) < 3)%nat ->
  sub_aux re_newlines to_two_newlines (c :: s) 0
  = c :: sub_aux re_newlines to_two_newlines s 0.
Proof.
  intros H. rewrite sub_cons, match_newlines.
  destruct (Nat.leb 3 (nlrun (c :: s))) eqn:E; [|reflexivity].
  apply Nat.leb_le in E. lia.
Qed.

Lemma collapse_run (r : nat) (t : str) :
  nlrun t = O ->
  sub_aux re_newlines to_two_newlines (repeat NL r ++ t) 0
  = repeat NL (Nat.min r 2) ++ sub_aux re_newlines to_two_newlines t 0.
Proof.
  intros Ht.
  destruct r as [|[|[|r]]].
  - reflexivity.
  - cbn [repeat app Nat.min]. rewrite collapse_short; [reflexivity|].
    rewrite nlrun_cons, Ht. cbn. lia.
  - cbn [repeat app Nat.min].
    rewrite collapse_short by (rewrite !nlrun_cons, Ht; cbn; lia).
    rewrite collapse_short by (rewrite !nlrun_cons, Ht; cbn; lia).
    reflexivity.
  - change (repeat NL (S (S (S r))) ++ t)
      with (NL :: (repeat NL (S (S r)) ++ t)).
    rewrite sub_cons, match_newlines, nlrun_cons, nlrun_repeat, Ht.
    replace (NL =? NL) with true by reflexivity.
    rewrite Nat.add_0_r. cbn [Nat.leb Nat.min expand to_two_newlines].
    rewrite skipn_repeat. reflexivity.
Qed.

Lemma collapse_sites (l : sites) :
  wf_sites l ->
  sub_aux re_newlines to_two_newlines (rest_text l) 0 = rest_text (cap_runs l).
Proof.
  induction l as [|[r b] l IH]; intros H; [reflexivity|].
  cbn [wf_sites] in H. destruct H as (Hr & Hb & He & Hl).
  cbn [rest_text cap_runs map fst snd].
  rewrite collapse_run by now apply nlrun_block.
  rewrite collapse_block by exact Hb. now rewrite IH.
Qed.

Lemma collapse_render (b : str) (l : sites) :
  wf b l ->
  remove_excessive_newlines (render b l) = render b (cap_runs l).
Proof.
  intros [Hb Hl]. unfold remove_excessive_newlines, sub, render.
  rewrite collapse_block by exact Hb. now rewrite collapse_sites.
Qed.

Lemma dot_cons (c : N) (b : str) :
  forallb dot (c :: b) = true -> (c =? NL) = false /\ forallb dot b = true.
Proof.
  cbn [forallb]. intros H. apply andb_prop in H. destruct H as [Hc Hb].
  unfold dot in Hc. split; [|exact Hb]. now destruct (c =? NL).
Qed.

(** Rule 2, the newline before a heading *)
Lemma before_block (b t : str) :
  forallb dot b = true ->
  newline_before_headings (b ++ t) = b ++ newline_before_headings t.
Proof.
  induction b as [|c b IH]; intros Hb; [reflexivity|].
  apply dot_cons in Hb. destruct Hb as [Hc Hb].
  cbn [app newline_before_headings]. rewrite Hc. cbn [andb].
  now rewrite IH.
Qed.

Lemma before_run (r : nat) (t : str) :
  nlrun t = O ->
  newline_before_headings (repeat NL (S r) ++ t)
  = repeat NL (S r + bnat (startswith1 HASH t)) ++ newline_before_headings t.
Proof.
  intros Ht. induction r as [|r IH].
  - cbn [repeat app newline_before_headings].
    replace (NL =? NL) with true by reflexivity. cbn [andb].
    destruct (startswith1 HASH t); reflexivity.
  - change (repeat NL (S (S r)) ++ t) with (NL :: (repeat NL (S r) ++ t)).
    cbn [newline_before_headings]. rewrite IH.
    change (startswith1 HASH (repeat NL (S r) ++ t)) with false.
    rewrite andb_false_r. reflexivity.
Qed.

Lemma head_block {A} (f : str -> A) (b : str) (l : sites) :
  (forall c x y, f (c :: x) = f (c :: y)) ->
  (b = [] -> l = []) -> f (b ++ rest_text l) = f b.
Proof.
  intros Hf Hl. destruct b as [|c b]; [now rewrite (Hl eq_refl)|].
  cbn [app]. apply Hf.
Qed.

Lemma before_sites (l : sites) :
  wf_sites l ->
  newline_before_headings (rest_text l) = rest_text (heading_before_runs l).
Proof.
  induction l as [|[r b] l IH]; intros H; [reflexivity|].
  cbn [wf_sites] in H. destruct H as (Hr & Hb & He & Hl).
  cbn [rest_text heading_before_runs map fst snd].
  destruct r as [|r]; [lia|].
  rewrite before_run by now apply nlrun_block.
  rewrite before_block by exact Hb. rewrite IH by exact Hl.
  rewrite (head_block (startswith1 HASH)) by (auto; reflexivity).
  reflexivity.
Qed.

Lemma before_render (b : str) (l : sites) :
  wf b l ->
  newline_before_headings (render b l) = render b (heading_before_runs l).
Proof.
  intros [Hb Hl]. unfold render.
  rewrite before_block by exact Hb. now rewrite before_sites.
Qed.

(** Rule 3, the newline after a heading line *)
Lemma after_block (b t : str) :
  forallb dot b = true ->
  forall seen,
    heading_gap (b ++ t) seen = b ++ heading_gap t (seen || contains HASH b).
Proof.
  induction b as [|c b IH]; intros Hb seen.
  - cbn [app contains existsb]. now rewrite orb_false_r.
  - apply dot_cons in Hb. destruct Hb as [Hc Hb].
    cbn [app heading_gap]. rewrite Hc, IH by exact Hb.
    unfold contains. cbn [existsb]. rewrite (N.eqb_sym HASH c), orb_assoc.
    reflexivity.
Qed.

Lemma after_run_false (r : nat) (t : str) :
  heading_gap (repeat NL r ++ t) false = repeat NL r ++ heading_gap t false.
Proof.
  induction r as [|r IH]; [reflexivity|].
  cbn [repeat app heading_gap]. replace (NL =? NL) with true by reflexivity.
  cbn [andb]. now rewrite IH.
Qed.

Lemma after_run (r : nat) (t : str) (seen : bool) :
  heading_gap (repeat NL (S r) ++ t) seen
  = repeat NL (S r + bnat (seen && Nat.eqb (S r) 1 && starts_text t))
    ++ heading_gap t false.
Proof.
  cbn [repeat app heading_gap]. replace (NL =? NL) with true by reflexivity.
  destruct r as [|r].
  - cbn [repeat app Nat.eqb]. rewrite andb_true_r.
    destruct (seen && starts_text t); reflexivity.
  - change (starts_text (repeat NL (S r) ++ t)) with false.
    rewrite andb_false_r. cbn [Nat.eqb]. rewrite andb_false_r. cbn [andb bnat].
    rewrite after_run_false, Nat.add_0_r. reflexivity.
Qed.

Lemma after_sites (l : sites) :
  wf_sites l ->
  forall seen,
    heading_gap (rest_text l) seen = rest_text (heading_after_runs seen l).
Proof.
  induction l as [|[r b] l IH]; intros H seen; [reflexivity|].
  cbn [wf_sites] in H. destruct H as (Hr & Hb & He & Hl).
  cbn [rest_text heading_after_runs].
  destruct r as [|r]; [lia|].
  rewrite after_run, after_block by exact Hb. rewrite IH by exact Hl.
  rewrite (head_block starts_text) by (auto; reflexivity).
  reflexivity.
Qed.

Lemma after_render (b : str) (l : sites) :
  wf b l ->
  heading_gap (render b l) false
  = render b (heading_after_runs (contains HASH b) l).
Proof.
  intros [Hb Hl]. unfold render.
  rewrite after_block by exact Hb. now rewrite after_sites.
Qed.

(** Rule 4, the newline before a list item *)
Lemma lstrip_blank (b t : str) :
  blank b = true -> lstrip (b ++ t) = lstrip t.
Proof.
  induction b as [|c b IH]; intros H; [reflexivity|].
  cbn [blank forallb] in H. apply andb_prop in H. destruct H as [Hc Hb].
  cbn [app lstrip]. rewrite Hc. now apply IH.
Qed.

Lemma lstrip_not_blank (b : str) : blank b = false -> lstrip b <> [].
Proof.
  induction b as [|c b IH]; [discriminate|].
  cbn [blank forallb lstrip]. destruct (isspace c); [exact IH | discriminate].
Qed.

Lemma starts_item_app (b t : str) :
  blank b = false -> starts_item (b ++ t) = starts_item b.
Proof.
  intros H. unfold starts_item.
  rewrite lstrip_app by now apply lstrip_not_blank.
  pose proof (lstrip_not_blank b H). now destruct (lstrip b).
Qed.

Lemma blank_repeat (r : nat) : blank (repeat NL r) = true.
Proof. induction r; [reflexivity | exact IHr]. Qed.

Lemma starts_item_run (r : nat) (t : str) :
  starts_item (repeat NL r ++ t) = starts_item t.
Proof. unfold starts_item. now rewrite lstrip_blank by apply blank_repeat. Qed.

Lemma starts_item_ahead (l : sites) :
  forall b, starts_item (b ++ rest_text l) = ahead b l.
Proof.
  induction l as [|[r b'] l IH]; intros b.
  - cbn [rest_text ahead]. rewrite app_nil_r. destruct (blank b) eqn:E; [|reflexivity].
    unfold starts_item. rewrite <- (app_nil_r b), lstrip_blank by exact E.
    reflexivity.
  - cbn [rest_text ahead]. destruct (blank b) eqn:E.
    + unfold starts_item at 1. rewrite lstrip_blank by exact E.
      fold (starts_item (repeat NL r ++ b' ++ rest_text l)).
      rewrite starts_item_run. apply IH.
    + now apply starts_item_app.
Qed.

Lemma list_block (b t : str) :
  forallb dot b = true ->
  forall st, list_gap (b ++ t) st = b ++ list_gap t (st && blank b).
Proof.
  induction b as [|c b IH]; intros Hb st.
  - cbn [app blank forallb]. now rewrite andb_true_r.
  - apply dot_cons in Hb. destruct Hb as [Hc Hb].
    cbn [app list_gap]. rewrite Hc. cbn [andb]. rewrite IH by exact Hb.
    cbn [blank forallb]. now rewrite andb_assoc.
Qed.

Lemma list_run_inside (r : nat) (t : str) :
  list_gap (repeat NL r ++ t) true = repeat NL r ++ list_gap t true.
Proof.
  induction r as [|r IH]; [reflexivity|].
  cbn [repeat app list_gap]. replace (NL =? NL) with true by reflexivity.
  cbn [andb negb]. replace (isspace NL) with true by reflexivity.
  now rewrite IH.
Qed.

Lemma list_run_quiet (r : nat) (t : str) :
  starts_item t = false ->
  list_gap (repeat NL r ++ t) false = repeat NL r ++ list_gap t false.
Proof.
  intros Ht. induction r as [|r IH]; [reflexivity|].
  cbn [repeat app list_gap]. rewrite starts_item_run, Ht, andb_false_r.
  cbn [andb]. now rewrite IH.
Qed.

Lemma list_run_fire (r : nat) (t : str) :
  starts_item t = true ->
  list_gap (repeat NL (S r) ++ t) false
  = repeat NL (S (S r)) ++ list_gap t true.
Proof.
  intros Ht. cbn [repeat app list_gap]. rewrite starts_item_run, Ht.
  replace (NL =? NL) with true by reflexivity. cbn [andb negb].
  now rewrite list_run_inside.
Qed.

Lemma list_sites (l : sites) :
  wf_sites l ->
  forall st, list_gap (rest_text l) st = rest_text (list_runs st l).
Proof.
  induction l as [|[r b] l IH]; intros H st; [reflexivity|].
  cbn [wf_sites] in H. destruct H as (Hr & Hb & He & Hl).
  cbn [rest_text list_runs]. rewrite <- starts_item_ahead.
  destruct st; cbn [negb andb orb].
  - rewrite list_run_inside, list_block by exact Hb. rewrite IH by exact Hl.
    cbn [bnat]. now rewrite Nat.add_0_r.
  - destruct (starts_item (b ++ rest_text l)) eqn:F.
    + destruct r as [|r]; [lia|].
      rewrite list_run_fire, list_block by assumption.
      rewrite IH by exact Hl. cbn [bnat andb].
      now rewrite Nat.add_1_r.
    + rewrite list_run_quiet, list_block by assumption.
      rewrite IH by exact Hl. cbn [bnat andb]. now rewrite Nat.add_0_r.
Qed.

Lemma list_render (b : str) (l : sites) :
  wf b l ->
  list_gap (render b l) false = render b (list_runs false l).
Proof.
  intros [Hb Hl]. unfold render.
  rewrite list_block by exact Hb. now rewrite list_sites.
Qed.

(** The table loop *)
Lemma split_nl_line (b : str) :
  forallb dot b = true -> split_nl b = [b].
Proof.
  induction b as [|c b IH]; intros Hb; [reflexivity|].
  apply dot_cons in Hb. destruct Hb as [Hc Hb].
  cbn [split_nl]. now rewrite Hc, IH.
Qed.

Lemma split_nl_block (b t : str) :
  forallb dot b = true -> split_nl (b ++ NL :: t) = b :: split_nl t.
Proof.
  induction b as [|c b IH]; intros Hb; [reflexivity|].
  apply dot_cons in Hb. destruct Hb as [Hc Hb].
  cbn [app split_nl]. now rewrite Hc, IH.
Qed.

Lemma split_nl_run (r : nat) (t : str) :
  split_nl (repeat NL r ++ t) = repeat [] r ++ split_nl t.
Proof.
  induction r as [|r IH]; [reflexivity|].
  cbn [repeat app split_nl]. replace (NL =? NL) with true by reflexivity.
  now rewrite IH.
Qed.

Lemma join_lines (x : str) (xs : list str) :
  join [NL] (x :: xs) = x ++ flat_map (cons NL) xs.
Proof.
  revert x. induction xs as [|y ys IH]; intros x.
  - cbn. now rewrite app_nil_r.
  - change (join [NL] (x :: y :: ys)) with (x ++ [NL] ++ join [NL] (y :: ys)).
    rewrite IH. reflexivity.
Qed.

Lemma table_lines_empty (k : nat) (ys : list str) :
  table_lines (repeat [] k ++ ys) false = repeat [] k ++ table_lines ys false.
Proof.
  induction k as [|k IH]; [reflexivity|].
  cbn [repeat app table_lines]. change (is_table_line []) with false.
  cbn [andb negb app]. rewrite IH. reflexivity.
Qed.

Lemma flat_repeat (k : nat) :
  flat_map (cons NL) (repeat [] k) = repeat NL k.
Proof. induction k as [|k IH]; [reflexivity|]. cbn. now rewrite IH. Qed.

Lemma repeat_snoc (k : nat) (t : str) :
  repeat NL k ++ NL :: t = repeat NL (S k) ++ t.
Proof.
  induction k as [|k IH]; [reflexivity|].
  cbn [repeat app]. rewrite IH. reflexivity.
Qed.

Lemma repeat_add (j k : nat) (t : str) :
  repeat NL j ++ repeat NL k ++ t = repeat NL (j + k) ++ t.
Proof. now rewrite repeat_app, <- app_assoc. Qed.

Lemma table_sites (l : sites) :
  wf_sites l ->
  forall b prev,
    forallb dot b = true ->
    flat_map (cons NL) (table_lines (split_nl (b ++ rest_text l)) prev)
    = repeat NL (bnat (xorb prev (is_table_line b)))
      ++ NL :: b ++ rest_text (table_runs (is_table_line b) l).
Proof.
  induction l as [|[r b'] l IH]; intros H b prev Hb.
  - cbn [rest_text table_runs]. rewrite app_nil_r, split_nl_line by exact Hb.
    cbn [table_lines].
    destruct (is_table_line b), prev; cbn; now rewrite app_nil_r.
  - cbn [wf_sites] in H. destruct H as (Hr & Hb' & He & Hl).
    cbn [rest_text table_runs]. destruct r as [|r]; [lia|].
    change (repeat NL (S r) ++ b' ++ rest_text l)
      with (NL :: (repeat NL r ++ b' ++ rest_text l)).
    rewrite split_nl_block by exact Hb. rewrite split_nl_run.
    cbn [table_lines]. rewrite flat_map_app. cbn [flat_map].
    assert (E : flat_map (cons NL)
                  (if is_table_line b && negb prev then [[]]
                   else if negb (is_table_line b) && prev then [[]] else [])
                = repeat NL (bnat (xorb prev (is_table_line b)))).
    { destruct (is_table_line b), prev; reflexivity. }
    rewrite E. f_equal. cbn [app]. f_equal. f_equal.
    destruct r as [|r].
    + cbn [repeat app Nat.eqb]. rewrite (IH Hl b' _ Hb').
      now rewrite repeat_snoc.
    + cbn [repeat app table_lines Nat.eqb].
      change (is_table_line []) with false. cbn [andb negb].
      rewrite table_lines_empty, flat_map_app. cbn [flat_map].
      rewrite flat_map_app, flat_repeat, (IH Hl b' false Hb').
      cbn [xorb].
      replace (if is_table_line b then [[]] else [])
        with (repeat (@nil N) (bnat (is_table_line b)))
        by now destruct (is_table_line b).
      rewrite flat_repeat.
      change (NL :: [] ++ repeat NL r ++ ?x) with (repeat NL (S r) ++ x).
      rewrite repeat_snoc, !repeat_add. cbn [app].
      rewrite repeat_snoc, repeat_add. f_equal. f_equal. lia.
Qed.

Lemma table_render (b : str) (l : sites) :
  wf b l ->
  join [NL] (table_lines (split_nl (render b l)) false)
  = repeat NL (bnat (is_table_line b))
    ++ render b (table_runs (is_table_line b) l).
Proof.
  intros [Hb Hl]. unfold render.
  pose proof (table_sites l Hl b false Hb) as H. cbn [xorb] in H.
  destruct (table_lines (split_nl (b ++ rest_text l)) false) as [|x xs] eqn:E.
  - destruct (is_table_line b); discriminate.
  - rewrite join_lines. cbn [flat_map] in H.
    rewrite repeat_snoc in H. cbn [repeat app] in H. now injection H.
Qed.

(** The steps keep the blocks and lengthen the runs. *)
Lemma wf_sites_runs (l : sites) :
  wf_sites l ->
  forall l2,
    map snd l2 = map snd l ->
    Forall (fun rb => (1 <= fst rb)%nat) l2 ->
    wf_sites l2.
Proof.
  induction l as [|[r b] l IH]; intros H l2 Hm Hr.
  - now destruct l2.
  - destruct l2 as [|[r2 b2] l2]; [discriminate|].
    cbn [map snd] in Hm. injection Hm as -> Hm.
    cbn [wf_sites] in H |- *. destruct H as (_ & Hb & He & Hl).
    inversion Hr as [|x y Hr1 Hr2]; subst. cbn [fst] in Hr1.
    repeat split; auto.
    intros E. specialize (He E). subst l. now destruct l2.
Qed.

Lemma wf_runs (l : sites) :
  wf_sites l -> Forall (fun rb => (1 <= fst rb)%nat) l.
Proof.
  induction l as [|[r b] l IH]; intros H; constructor.
  - apply H.
  - apply IH, H.
Qed.

Lemma cap_blocks (l : sites) : map snd (cap_runs l) = map snd l.
Proof. unfold cap_runs. rewrite map_map. reflexivity. Qed.

Lemma before_blocks (l : sites) : map snd (heading_before_runs l) = map snd l.
Proof. unfold heading_before_runs. rewrite map_map. reflexivity. Qed.

Lemma after_blocks (l : sites) :
  forall seen, map snd (heading_after_runs seen l) = map snd l.
Proof.
  induction l as [|[r b] l IH]; intros seen; [reflexivity|].
  cbn [heading_after_runs map snd]. now rewrite IH.
Qed.

Lemma list_blocks (l : sites) :
  forall st, map snd (list_runs st l) = map snd l.
Proof.
  induction l as [|[r b] l IH]; intros st; [reflexivity|].
  cbn [list_runs map snd]. now rewrite IH.
Qed.

Lemma pass_blocks (l : sites) :
  forall a st, map snd (pass a st l) = map snd l.
Proof.
  induction l as [|[r b] l IH]; intros a st; [reflexivity|].
  cbn [pass map snd]. now rewrite IH.
Qed.

Lemma wf_cap (l : sites) : wf_sites l -> wf_sites (cap_runs l).
Proof.
  intros H. apply (wf_sites_runs l H); [apply cap_blocks|].
  apply wf_runs in H. unfold cap_runs. apply Forall_map.
  revert H. apply Forall_impl. intros [r b]. cbn [fst]. lia.
Qed.

Lemma wf_before (l : sites) : wf_sites l -> wf_sites (heading_before_runs l).
Proof.
  intros H. apply (wf_sites_runs l H); [apply before_blocks|].
  apply wf_runs in H. unfold heading_before_runs. apply Forall_map.
  revert H. apply Forall_impl. intros [r b]. cbn [fst]. lia.
Qed.

Lemma wf_after (l : sites) :
  wf_sites l -> forall seen, wf_sites (heading_after_runs seen l).
Proof.
  intros H seen. apply (wf_sites_runs l H); [apply after_blocks|].
  apply wf_runs in H. revert seen.
  induction H as [|[r b] l Hr Hl IH]; intros seen; constructor.
  - cbn [fst] in *. lia.
  - apply IH.
Qed.

Lemma wf_list (l : sites) :
  wf_sites l -> forall st, wf_sites (list_runs st l).
Proof.
  intros H st. apply (wf_sites_runs l H); [apply list_blocks|].
  apply wf_runs in H. revert st.
  induction H as [|[r b] l Hr Hl IH]; intros st; constructor.
  - cbn [fst] in *. lia.
  - apply IH.
Qed.

Lemma site_run_positive (h t f : bool) (b : str) (r : nat) :
  (1 <= r)%nat -> (1 <= site_run h t f b r)%nat.
Proof. unfold site_run. lia. Qed.

Lemma wf_pass (l : sites) :
  wf_sites l -> forall a st, wf_sites (pass a st l).
Proof.
  intros H a st. apply (wf_sites_runs l H); [apply pass_blocks|].
  apply wf_runs in H. revert a st.
  induction H as [|[r b] l Hr Hl IH]; intros a st; constructor.
  - cbn [fst] in *. now apply site_run_positive.
  - apply IH.
Qed.

Lemma ahead_blocks (l : sites) :
  forall l2 b, map snd l2 = map snd l -> ahead b l2 = ahead b l.
Proof.
  induction l as [|[r b'] l IH]; intros l2 b Hm.
  - now destruct l2.
  - destruct l2 as [|[r2 b2] l2]; [discriminate|].
    cbn [map snd] in Hm. injection Hm as -> Hm.
    cbn [ahead]. now rewrite (IH l2 b' Hm).
Qed.

(** The five steps together. *)
Lemma pass_steps (l : sites) :
  forall a st,
    table_runs (is_table_line a)
      (list_runs st
         (heading_after_runs (contains HASH a)
            (heading_before_runs (cap_runs l))))
    = pass a st l.
Proof.
  induction l as [|[r b] l IH]; intros a st; [reflexivity|].
  cbn [cap_runs heading_before_runs map fst snd heading_after_runs list_runs
       table_runs pass].
  fold (cap_runs l). fold (heading_before_runs (cap_runs l)).
  rewrite (ahead_blocks l)
    by now rewrite after_blocks, before_blocks, cap_blocks.
  rewrite IH. reflexivity.
Qed.

Lemma clean_render (b : str) (l : sites) :
  wf b l ->
  _clean_markdown (render b l)
  = strip (repeat NL (bnat (is_table_line b)) ++ render b (pass b false l)).
Proof.
  intros [Hb Hl]. unfold _clean_markdown.
  rewrite collapse_render by now split.
  unfold fix_heading_before, fix_heading_after, fix_list_formatting, sub.
  rewrite (fix_heading_before_bounded _ _ (le_n _)).
  rewrite before_render by (split; [exact Hb | now apply wf_cap]).
  rewrite (fix_heading_after_bounded _ _ (le_n _)).
  rewrite after_render
    by (split; [exact Hb | now apply wf_before, wf_cap]).
  rewrite (fix_list_formatting_bounded _ _ (le_n _)).
  rewrite list_render
    by (split; [exact Hb | now apply wf_after, wf_before, wf_cap]).
  rewrite table_render
    by (split; [exact Hb | now apply wf_list, wf_after, wf_before, wf_cap]).
  now rewrite pass_steps.
Qed.

(* ------------------------------------------------------------------ *)
(** ** The pass repeated *)

Lemma site_run_twice (h t f : bool) (b : str) (r : nat) :
  (1 <= r)%nat ->
  site_run h t f b (site_run h t f b (site_run h t f b r))
  = site_run h t f b (site_run h t f b r).
Proof.
  intros Hr. unfold site_run.
  destruct (startswith1 HASH b), (starts_text b), (is_table_line b), h, t, f;
    destruct r as [|[|[|r]]]; try lia; reflexivity.
Qed.

Lemma site_run_once (h t f : bool) (b : str) (r : nat) :
  (1 <= r)%nat ->
  site_run h t f b (site_run h t f b r) = site_run h t f b r
  <-> Nat.leb 2 r
      || negb (startswith1 HASH b)
         && ((h && starts_text b)
             || (negb f && Bool.eqb t (is_table_line b))) = true.
Proof.
  intros Hr. unfold site_run.
  destruct (startswith1 HASH b), (starts_text b), (is_table_line b), h, t, f;
    destruct r as [|[|[|r]]]; try lia; cbn; split; intros H;
    try reflexivity; try discriminate; try lia.
Qed.

Lemma ahead_pass (l : sites) (b a : str) (st : bool) :
  ahead b (pass a st l) = ahead b l.
Proof. apply ahead_blocks, pass_blocks. Qed.

Lemma pass_twice (l : sites) :
  Forall (fun rb => (1 <= fst rb)%nat) l ->
  forall a st,
    pass a st (pass a st (pass a st l)) = pass a st (pass a st l).
Proof.
  induction 1 as [|[r b] l Hr Hl IH]; intros a st; [reflexivity|].
  cbn [pass]. rewrite !ahead_pass.
  rewrite site_run_twice by exact Hr. now rewrite IH.
Qed.

Lemma pass_once (l : sites) :
  Forall (fun rb => (1 <= fst rb)%nat) l ->
  forall a st,
    pass a st (pass a st l) = pass a st l <-> settled a st l = true.
Proof.
  induction 1 as [|[r b] l Hr Hl IH]; intros a st; [now split|].
  cbn [fst] in Hr. cbn [pass settled]. rewrite !ahead_pass.
  rewrite andb_true_iff. split.
  - intros H. injection H as H1 H2. split.
    + now apply (site_run_once _ _ _ _ _ Hr).
    + now apply IH.
  - intros [H1 H2]. apply (site_run_once _ _ _ _ _ Hr) in H1.
    apply IH in H2. now rewrite H1, H2.
Qed.

(* ------------------------------------------------------------------ *)
(** ** Trimming, on strings and on blocks and runs *)

(** White space at the ends of a block *)
Lemma blank_app (a b : str) : blank (a ++ b) = blank a && blank b.
Proof. apply forallb_app. Qed.

Lemma blank_rev (s : str) : blank (rev s) = blank s.
Proof.
  induction s as [|c s IH]; [reflexivity|].
  cbn [rev]. rewrite blank_app, IH. cbn [blank forallb].
  now rewrite andb_true_r, andb_comm.
Qed.

Lemma rstrip_blank_app (s w : str) :
  blank w = true -> rstrip (s ++ w) = rstrip s.
Proof.
  intros H. unfold rstrip. rewrite rev_app_distr.
  now rewrite lstrip_blank by now rewrite blank_rev.
Qed.

Lemma rstrip_not_blank (s : str) : blank s = false -> rstrip s <> [].
Proof.
  intros H E. unfold rstrip in E.
  apply (f_equal (@rev N)) in E. rewrite rev_involutive in E. cbn [rev] in E.
  revert E. apply lstrip_not_blank. now rewrite blank_rev.
Qed.

Lemma lstrip_split (b : str) :
  exists w, blank w = true /\ b = w ++ lstrip b.
Proof.
  induction b as [|c b (w & Hw & E)]; [now exists []|].
  cbn [lstrip]. destruct (isspace c) eqn:Ec.
  - exists (c :: w). cbn [blank forallb app]. rewrite Ec. split; [exact Hw|].
    now rewrite <- E.
  - now exists [].
Qed.

Lemma rstrip_split (b : str) :
  exists w, blank w = true /\ b = rstrip b ++ w.
Proof.
  destruct (lstrip_split (rev b)) as (w & Hw & E).
  exists (rev w). split; [now rewrite blank_rev|].
  unfold rstrip. rewrite <- rev_app_distr, <- E. now rewrite rev_involutive.
Qed.

Lemma contains_blank (c : N) (w : str) :
  isspace c = false -> blank w = true -> contains c w = false.
Proof.
  intros Hc. induction w as [|x w IH]; intros H; [reflexivity|].
  cbn [blank forallb] in H. apply andb_prop in H. destruct H as [Hx Hw].
  unfold contains in *. cbn [existsb]. rewrite (IH Hw), orb_false_r.
  destruct (c =? x) eqn:E; [|reflexivity].
  apply N.eqb_eq in E. congruence.
Qed.

Lemma contains_lstrip (c : N) (b : str) :
  isspace c = false -> contains c (lstrip b) = contains c b.
Proof.
  intros Hc. destruct (lstrip_split b) as (w & Hw & E).
  rewrite E at 2. unfold contains. rewrite existsb_app.
  fold (contains c w). now rewrite contains_blank.
Qed.

Lemma contains_rstrip (c : N) (b : str) :
  isspace c = false -> contains c (rstrip b) = contains c b.
Proof.
  intros Hc. destruct (rstrip_split b) as (w & Hw & E).
  rewrite E at 2. unfold contains. rewrite existsb_app.
  fold (contains c w). now rewrite contains_blank, orb_false_r.
Qed.

Lemma blank_rstrip (b : str) : blank (rstrip b) = blank b.
Proof.
  destruct (rstrip_split b) as (w & Hw & E).
  rewrite E at 2. now rewrite blank_app, Hw, andb_true_r.
Qed.

Lemma strip_rstrip (b : str) : strip (rstrip b) = strip b.
Proof.
  destruct (blank b) eqn:B.
  - rewrite !strip_blank; [reflexivity | exact B | now rewrite blank_rstrip].
  - destruct (rstrip_split b) as (w & Hw & E).
    transitivity (rstrip (lstrip (rstrip b ++ w)));
      [|unfold strip; now rewrite <- E].
    rewrite lstrip_app
      by (apply lstrip_not_blank; now rewrite blank_rstrip).
    now rewrite rstrip_blank_app.
Qed.

Lemma table_lstrip (b : str) : is_table_line (lstrip b) = is_table_line b.
Proof.
  unfold is_table_line. rewrite contains_lstrip by reflexivity.
  unfold strip. now rewrite lstrip_idem.
Qed.

Lemma table_rstrip (b : str) : is_table_line (rstrip b) = is_table_line b.
Proof.
  unfold is_table_line. rewrite contains_rstrip by reflexivity.
  now rewrite strip_rstrip.
Qed.

Lemma head_rstrip {A} (f : str -> A) (b : str) :
  (forall c x y, f (c :: x) = f (c :: y)) ->
  blank b = false -> f (rstrip b) = f b.
Proof.
  intros Hf B. pose proof (rstrip_not_blank b B) as Hn.
  destruct (rstrip_split b) as (w & Hw & E).
  rewrite E at 2. destruct (rstrip b) as [|c t]; [congruence|].
  cbn [app]. apply Hf.
Qed.

Lemma starts_item_rstrip (b : str) :
  blank b = false -> starts_item (rstrip b) = starts_item b.
Proof.
  intros B. destruct (rstrip_split b) as (w & Hw & E).
  rewrite E at 2. symmetry. apply starts_item_app.
  now rewrite blank_rstrip.
Qed.

Lemma dot_lstrip (b : str) : forallb dot b = true -> forallb dot (lstrip b) = true.
Proof.
  intros H. destruct (lstrip_skipn b) as [n ->]. now apply forallb_skipn.
Qed.

Lemma dot_rstrip (b : str) : forallb dot b = true -> forallb dot (rstrip b) = true.
Proof.
  intros H. destruct (rstrip_firstn b) as [n ->]. now apply forallb_firstn.
Qed.

Lemma lstrip_strip (s : str) : lstrip (strip s) = strip s.
Proof.
  destruct (strip s) as [|c t] eqn:E; [reflexivity|].
  cbn [lstrip]. now rewrite (strip_head s c t E).
Qed.

Lemma blank_rest (l : sites) :
  forall b, blank (b ++ rest_text l) = blank_from b l.
Proof.
  induction l as [|[r b'] l IH]; intros b.
  - cbn [rest_text blank_from]. now rewrite app_nil_r, andb_true_r.
  - cbn [rest_text blank_from]. rewrite blank_app, blank_app, blank_repeat, IH.
    reflexivity.
Qed.

Lemma blank_from_blocks (l : sites) :
  forall l2 b, map snd l2 = map snd l -> blank_from b l2 = blank_from b l.
Proof.
  induction l as [|[r b'] l IH]; intros l2 b Hm.
  - now destruct l2.
  - destruct l2 as [|[r2 b2] l2]; [discriminate|].
    cbn [map snd] in Hm. injection Hm as -> Hm.
    cbn [blank_from]. now rewrite (IH l2 b' Hm).
Qed.

(** [lstrip] and [rstrip] on blocks and runs *)
Lemma lstrip_render (l : sites) :
  forall b,
    lstrip (render b l) = render (fst (ltrim b l)) (snd (ltrim b l)).
Proof.
  unfold render.
  induction l as [|[r b'] l IH]; intros b.
  - cbn [ltrim rest_text]. destruct (blank b) eqn:B; cbn [fst snd rest_text].
    + now rewrite lstrip_blank by exact B.
    + now rewrite !app_nil_r.
  - cbn [ltrim]. destruct (blank b) eqn:B.
    + rewrite lstrip_blank by exact B. cbn [rest_text].
      rewrite lstrip_blank by apply blank_repeat. apply IH.
    + cbn [fst snd]. apply lstrip_app. now apply lstrip_not_blank.
Qed.

Lemma rstrip_render (l : sites) :
  forall b,
    rstrip (render b l) = render (fst (rtrim b l)) (snd (rtrim b l)).
Proof.
  unfold render.
  induction l as [|[r b'] l IH]; intros b.
  - cbn [rtrim rest_text fst snd]. now rewrite !app_nil_r.
  - cbn [rtrim rest_text]. destruct (blank_from b' l) eqn:B.
    + cbn [fst snd rest_text]. rewrite app_nil_r. apply rstrip_blank_app.
      now rewrite blank_app, blank_repeat, blank_rest.
    + specialize (IH b'). destruct (rtrim b' l) as [c m].
      cbn [fst snd rest_text] in *. rewrite <- IH.
      rewrite !app_assoc. rewrite <- app_assoc with (n := rest_text l).
      apply rstrip_app. apply rstrip_not_blank. now rewrite blank_rest.
Qed.

(** The pass looks at a block through a few tests only. *)
Lemma pass_first (a a' : str) (st : bool) (l : sites) :
  contains HASH a' = contains HASH a ->
  is_table_line a' = is_table_line a ->
  pass a' st l = pass a st l.
Proof.
  intros H1 H2. destruct l as [|[r b] l]; [reflexivity|].
  cbn [pass]. now rewrite H1, H2.
Qed.

Lemma ltrim_pass (l : sites) :
  forall b st,
    (st = true -> blank b = true) ->
    ltrim b (pass b st l)
    = (fst (ltrim b l), pass (fst (ltrim b l)) false (snd (ltrim b l))).
Proof.
  induction l as [|[r b'] l IH]; intros b st Hst.
  - cbn [pass ltrim]. now destruct (blank b).
  - cbn [pass ltrim]. destruct (blank b) eqn:B.
    + apply IH. intros H. apply andb_prop in H. apply H.
    + cbn [fst snd]. f_equal.
      destruct st; [now specialize (Hst eq_refl)|].
      symmetry. apply (pass_first b (lstrip b) false ((r, b') :: l)).
      * now apply contains_lstrip.
      * apply table_lstrip.
Qed.

Lemma site_run_alike (h t f : bool) (b b2 : str) (r : nat) :
  startswith1 HASH b2 = startswith1 HASH b ->
  starts_text b2 = starts_text b ->
  is_table_line b2 = is_table_line b ->
  site_run h t f b2 r = site_run h t f b r.
Proof. intros H1 H2 H3. unfold site_run. now rewrite H1, H2, H3. Qed.

Lemma rtrim_first (l : sites) (b : str) :
  blank_from b l = false ->
  startswith1 HASH (fst (rtrim b l)) = startswith1 HASH b
  /\ starts_text (fst (rtrim b l)) = starts_text b
  /\ is_table_line (fst (rtrim b l)) = is_table_line b
  /\ blank (fst (rtrim b l)) = blank b.
Proof.
  intros B.
  assert (R : blank b = false ->
              startswith1 HASH (rstrip b) = startswith1 HASH b
              /\ starts_text (rstrip b) = starts_text b
              /\ is_table_line (rstrip b) = is_table_line b
              /\ blank (rstrip b) = blank b).
  { intros Hb. repeat split.
    - now apply (head_rstrip (startswith1 HASH)).
    - now apply (head_rstrip starts_text).
    - apply table_rstrip.
    - apply blank_rstrip. }
  destruct l as [|[r b'] l]; cbn [rtrim blank_from] in *.
  - cbn [fst]. apply R. now rewrite andb_true_r in B.
  - destruct (blank_from b' l) eqn:B'.
    + cbn [fst]. apply R. now rewrite andb_true_r in B.
    + destruct (rtrim b' l). cbn [fst]. now repeat split.
Qed.

Lemma rtrim_ahead (l : sites) :
  forall b,
    blank_from b l = false ->
    ahead (fst (rtrim b l)) (snd (rtrim b l)) = ahead b l.
Proof.
  induction l as [|[r b'] l IH]; intros b B; cbn [rtrim blank_from] in *.
  - cbn [fst snd ahead]. rewrite andb_true_r in B.
    now rewrite blank_rstrip, B, starts_item_rstrip.
  - destruct (blank_from b' l) eqn:B'.
    + cbn [fst snd ahead]. rewrite andb_true_r in B.
      now rewrite blank_rstrip, B, starts_item_rstrip.
    + specialize (IH b' B'). destruct (rtrim b' l) as [c m].
      cbn [fst snd ahead] in *. now rewrite IH.
Qed.

Lemma rtrim_pass (l : sites) :
  forall b st,
    rtrim b (pass b st l)
    = (fst (rtrim b l), pass (fst (rtrim b l)) st (snd (rtrim b l))).
Proof.
  induction l as [|[r b'] l IH]; intros b st; [reflexivity|].
  cbn [pass rtrim].
  rewrite (blank_from_blocks l) by apply pass_blocks.
  destruct (blank_from b' l) eqn:B; [reflexivity|].
  rewrite IH.
  pose proof (rtrim_first l b' B) as (H1 & H2 & H3 & H4).
  pose proof (rtrim_ahead l b' B) as H5.
  destruct (rtrim b' l) as [c m]. cbn [fst snd pass] in *.
  rewrite H5, H4, (site_run_alike _ _ _ b' c) by assumption.
  reflexivity.
Qed.

(** Trimming keeps the form. *)
Lemma wf_ltrim (l : sites) :
  forall b, wf b l -> wf (fst (ltrim b l)) (snd (ltrim b l)).
Proof.
  induction l as [|[r b'] l IH]; intros b [Hb Hl]; cbn [ltrim].
  - destruct (blank b); cbn [fst snd]; split; auto. now apply dot_lstrip.
  - destruct (blank b).
    + apply IH. cbn [wf_sites] in Hl. split; apply Hl.
    + cbn [fst snd]. split; [now apply dot_lstrip | exact Hl].
Qed.

Lemma dot_rtrim (l : sites) (b : str) :
  forallb dot b = true -> forallb dot (fst (rtrim b l)) = true.
Proof.
  intros Hb. destruct l as [|[r b'] l]; cbn [rtrim].
  - now apply dot_rstrip.
  - destruct (blank_from b' l); [now apply dot_rstrip|].
    now destruct (rtrim b' l).
Qed.

Lemma wf_rtrim (l : sites) :
  forall b, wf b l -> wf (fst (rtrim b l)) (snd (rtrim b l)).
Proof.
  induction l as [|[r b'] l IH]; intros b [Hb Hl].
  - split; [now apply dot_rstrip | exact I].
  - split; [now apply dot_rtrim|].
    cbn [wf_sites] in Hl. destruct Hl as (Hr & Hb' & He & Hl).
    cbn [rtrim]. destruct (blank_from b' l) eqn:B; [exact I|].
    pose proof (IH b' (conj Hb' Hl)) as [Hc Hm].
    pose proof (dot_rtrim l b' Hb') as Hd.
    assert (Hn : fst (rtrim b' l) = [] -> snd (rtrim b' l) = []).
    { destruct l as [|[r2 b2] l]; [reflexivity|].
      cbn [rtrim]. destruct (blank_from b2 l); [reflexivity|].
      destruct (rtrim b2 l). cbn [fst snd]. intros E.
      specialize (He E). discriminate. }
    destruct (rtrim b' l) as [c m]. cbn [fst snd wf_sites] in *.
    repeat split; assumption.
Qed.

Lemma wf_trim (b : str) (l : sites) :
  wf b l -> wf (fst (trim b l)) (snd (trim b l)).
Proof.
  intros H. unfold trim. pose proof (wf_ltrim l b H) as H'.
  destruct (ltrim b l) as [c m]. now apply wf_rtrim.
Qed.

Lemma strip_render (b : str) (l : sites) :
  strip (render b l) = render (fst (trim b l)) (snd (trim b l)).
Proof.
  unfold strip, trim. rewrite lstrip_render.
  destruct (ltrim b l) as [c m]. apply rstrip_render.
Qed.

(** A string has one form only. *)
Lemma parse_block (b t : str) :
  forallb dot b = true ->
  parse (b ++ t) = (b ++ fst (parse t), snd (parse t)).
Proof.
  induction b as [|c b IH]; intros Hb; [cbn [app]; now destruct (parse t)|].
  apply dot_cons in Hb. destruct Hb as [Hc Hb].
  cbn [app parse]. rewrite (IH Hb), Hc. reflexivity.
Qed.

Lemma parse_run (r : nat) (t b : str) (l : sites) :
  parse t = (b, l) -> (b = [] -> l = []) ->
  parse (repeat NL (S r) ++ t) = ([], (S r, b) :: l).
Proof.
  intros Ht Hb. induction r as [|r IH].
  - cbn [repeat app parse]. rewrite Ht.
    replace (NL =? NL) with true by reflexivity.
    destruct b as [|x b]; [now rewrite (Hb eq_refl)|reflexivity].
  - change (repeat NL (S (S r)) ++ t) with (NL :: (repeat NL (S r) ++ t)).
    cbn [parse]. rewrite IH. reflexivity.
Qed.

Lemma parse_rest (l : sites) :
  wf_sites l ->
  forall b, forallb dot b = true -> parse (b ++ rest_text l) = (b, l).
Proof.
  induction l as [|[r b'] l IH]; intros H b Hb.
  - cbn [rest_text]. rewrite parse_block by exact Hb. cbn. now rewrite app_nil_r.
  - cbn [wf_sites] in H. destruct H as (Hr & Hb' & He & Hl).
    rewrite parse_block by exact Hb. cbn [rest_text].
    destruct r as [|r]; [lia|].
    rewrite (parse_run r _ b' l (IH Hl b' Hb') He).
    cbn [fst snd]. now rewrite app_nil_r.
Qed.

Lemma parse_render (b : str) (l : sites) :
  wf b l -> parse (render b l) = (b, l).
Proof. intros [Hb Hl]. now apply parse_rest. Qed.

(* ------------------------------------------------------------------ *)
(** ** The normalization pass run twice and three times *)

Lemma tidy_parse (s : str) :
  strip s = s -> tidy (fst (parse s)) (snd (parse s)).
Proof.
  intros Hs. pose proof (wf_parse s) as W. pose proof (render_parse s) as R.
  destruct (parse s) as [c m] eqn:E. cbn [fst snd] in *. split.
  - rewrite (surjective_pairing (ltrim c m)).
    rewrite <- (parse_render _ _ (wf_ltrim m c W)), <- lstrip_render, R.
    now rewrite <- Hs, lstrip_strip, Hs.
  - rewrite (surjective_pairing (rtrim c m)).
    rewrite <- (parse_render _ _ (wf_rtrim m c W)), <- rstrip_render, R.
    now rewrite <- Hs, rstrip_strip, Hs.
Qed.

Lemma tidy_pass (c : str) (m : sites) :
  tidy c m -> tidy c (pass c false m).
Proof.
  intros [L R]. split.
  - rewrite ltrim_pass by discriminate. now rewrite L.
  - rewrite rtrim_pass. now rewrite R.
Qed.

Lemma strip_tidy (c : str) (m : sites) (k : nat) :
  tidy c m -> strip (repeat NL k ++ render c m) = render c m.
Proof.
  intros [L R]. unfold strip.
  rewrite lstrip_blank by apply blank_repeat.
  rewrite lstrip_render, L. cbn [fst snd]. now rewrite rstrip_render, R.
Qed.

Lemma clean_tidy (c : str) (m : sites) :
  wf c m -> tidy c m ->
  _clean_markdown (render c m) = render c (pass c false m).
Proof.
  intros W T. rewrite clean_render by exact W.
  apply strip_tidy. now apply tidy_pass.
Qed.

(** One pass, on the blocks and runs of the trimmed input. *)
Lemma clean_parse (s : str) :
  _clean_markdown s
  = render (fst (parse (strip s)))
           (pass (fst (parse (strip s))) false (snd (parse (strip s)))).
Proof.
  pose proof (wf_parse s) as W. pose proof (render_parse s) as R.
  destruct (parse s) as [b l]. cbn [fst snd] in *. subst s.
  rewrite strip_render, (parse_render _ _ (wf_trim b l W)).
  rewrite clean_render by exact W.
  unfold strip, trim. rewrite lstrip_blank by apply blank_repeat.
  rewrite lstrip_render, ltrim_pass by discriminate. cbn [fst snd].
  rewrite rstrip_render, rtrim_pass. cbn [fst snd].
  now destruct (ltrim b l).
Qed.

(** C1 (as amended): the pass is not idempotent, but its second run is
    final: on every string a third run changes nothing.  The first run
    is final as well exactly for the inputs whose trimmed text, seen as
    blocks and runs of newlines, is [settled]: every single newline either
    stands between a line with a [#] and a non-empty line that does not
    start with [#], or is one at which no rule adds anything. *)
Theorem clean_markdown_settles_at_second_pass (s : str) :
  _clean_markdown (_clean_markdown (_clean_markdown s))
  = _clean_markdown (_clean_markdown s)
  /\ (_clean_markdown (_clean_markdown s) = _clean_markdown s
      <-> settled (fst (parse (strip s))) false (snd (parse (strip s)))
          = true).
Proof.
  pose proof (wf_parse (strip s)) as W.
  pose proof (tidy_parse (strip s) (strip_idem s)) as T.
  rewrite (clean_parse s).
  destruct (parse (strip s)) as [c m]. cbn [fst snd] in *.
  destruct W as [Wc Wm].
  assert (W1 : wf c (pass c false m)) by (split; [exact Wc | now apply wf_pass]).
  assert (T1 : tidy c (pass c false m)) by now apply tidy_pass.
  assert (W2 : wf c (pass c false (pass c false m)))
    by (split; [exact Wc | now apply wf_pass, wf_pass]).
  assert (T2 : tidy c (pass c false (pass c false m))) by now apply tidy_pass.
  rewrite (clean_tidy _ _ W1 T1), (clean_tidy _ _ W2 T2).
  split.
  - now rewrite pass_twice by now apply wf_runs.
  - rewrite <- (pass_once m (wf_runs m Wm) c false). split.
    + intros E. apply (f_equal parse) in E.
      rewrite (parse_render _ _ W1), (parse_render _ _ W2) in E.
      now injection E.
    + now intros ->.
Qed.

Lemma clean_markdown_settles_at_second_pass_witness :
  let s := py " intro" ++ [NL; NL] ++ py "# Title" ++ [NL] ++ py "text"
           ++ [NL; NL] ++ py "- item" ++ [NL] in
  let t := py "intro" ++ [NL; NL; NL] ++ py "# Title" ++ [NL; NL] ++ py "text"
           ++ [NL; NL; NL] ++ py "- item" in
  parse (strip s)
  = (py "intro", [(2%nat, py "# Title"); (1%nat, py "text");
                  (2%nat, py "- item")])
  /\ settled (fst (parse (strip s))) false (snd (parse (strip s))) = true
  /\ _clean_markdown s = t
  /\ _clean_markdown (_clean_markdown s) = _clean_markdown s
  /\ _clean_markdown (_clean_markdown (_clean_markdown s))
     = _clean_markdown (_clean_markdown s).
Proof.
  intros s t. split; [reflexivity|]. split; [reflexivity|].
  split; [reflexivity|]. split.
  - apply (proj2 (clean_markdown_settles_at_second_pass s)). reflexivity.
  - apply (proj1 (clean_markdown_settles_at_second_pass s)).
Defined.
